(** * Resume-Screening-AI-Agent: the scoring and retrieval core

    A shallow embedding of

      - [app/utils/text_utils.py]        (text normaliser),
      - [app/embeddings/embedding_service.py] (vector store),
      - [app/utils/llm_client.py]        (generation client),
      - [app/ranking/matcher.py]         (candidate scorer),

    and the properties the specification states about them.

    Conventions.  A Python [str] is a list of Unicode code points
    ([list N]).  A Python [float] is idealised as an exact rational
    ([Q]): rounding error of binary64 arithmetic is outside the model.
    Exceptions are values of a sum type ([res]).  The mutable
    [VectorStoreManager] object together with its two files is a record
    that every method takes and returns.  External libraries
    (SentenceTransformers, sklearn's [cosine_similarity], numpy's
    [argsort], the HTTP call to Ollama, [str.lower]) are Section
    variables. *)

From Stdlib Require Import ZArith QArith Qround Lia Lqa.
From stdpp Require Import base option list strings pretty sorting gmap.

(** ** Python strings *)

Module Str.

Abbreviation char := N (only parsing).
Abbreviation str := (list N) (only parsing).

(** A literal of the source, as code points. *)
Definition lit (s : string) : str :=
  List.map Ascii.N_of_ascii (String.list_ascii_of_string s).

Definition SP : N := 32%N.

(** [str.isspace] on one character, which is also the class [\s] of
    [re] on [str] patterns (CPython's [_PyUnicode_IsWhitespace]). *)
Definition is_space (c : N) : bool :=
  ((9 <=? c) && (c <=? 13) || (28 <=? c) && (c <=? 32)
   || (c =? 133) || (c =? 160) || (c =? 5760)
   || (8192 <=? c) && (c <=? 8202)
   || (c =? 8232) || (c =? 8233) || (c =? 8239) || (c =? 8287)
   || (c =? 12288))%N.
Global Arguments is_space : simpl never.

Fixpoint lstrip (t : str) : str :=
  match t with
  | [] => []
  | c :: r => if is_space c then lstrip r else t
  end.

Fixpoint rstrip (t : str) : str :=
  match t with
  | [] => []
  | c :: r =>
      match rstrip r with
      | [] => if is_space c then [] else [c]
      | r' => c :: r'
      end
  end.

(** [str.strip()] with no argument. *)
Definition strip (t : str) : str := rstrip (lstrip t).

(** [" ".join(parts)]. *)
Fixpoint join_sp (parts : list str) : str :=
  match parts with
  | [] => []
  | [p] => p
  | p :: rest => p ++ SP :: join_sp rest
  end.

(** [needle in hay]. *)
Fixpoint starts_with (p t : str) : bool :=
  match p, t with
  | [], _ => true
  | _ :: _, [] => false
  | a :: p', b :: t' => (a =? b)%N && starts_with p' t'
  end.

Fixpoint contains (needle hay : str) : bool :=
  starts_with needle hay ||
  match hay with
  | [] => false
  | _ :: hay' => contains needle hay'
  end.

End Str.
Import Str.

(** ** app/utils/text_utils.py *)

(** [re.sub(r"\s+", " ", text)]: every maximal run of whitespace becomes
    one space.  [in_run] says that the previous character belonged to the
    run being replaced. *)
Fixpoint sub_ws (in_run : bool) (text : str) : str :=
  match text with
  | [] => []
  | c :: r =>
      if is_space c
      then (if in_run then sub_ws true r else SP :: sub_ws true r)
      else c :: sub_ws false r
  end.

Definition clean_text (text : str) : str := strip (sub_ws false text).

(** *** Whitespace-normal texts *)

(** Every whitespace character is a single space that does not follow
    another one ([prev] tells whether a space precedes the text). *)
Fixpoint tidy (prev : bool) (t : str) : bool :=
  match t with
  | [] => true
  | c :: r =>
      if is_space c then (c =? SP)%N && negb prev && tidy true r
      else tidy false r
  end.

(** *** [estimate_years_of_experience] *)

(** [\d] in a [str] pattern is any decimal digit of the Unicode database
    (category Nd), and [int] reads each of them by its decimal value.
    The digits come in runs of ten consecutive code points, zero first:
    [DECIMAL_RUNS] lists the first code point of every run of Unicode 15
    (the database of CPython 3.12 and 3.13), from ASCII 0030 and
    Arabic-Indic 0660 to the segmented digits at 1FBF0.  An interpreter
    with an older or a newer database knows a few runs less or more. *)
Definition DECIMAL_RUNS : list N :=
  [48; 1632; 1776; 1984; 2406; 2534; 2662; 2790; 2918; 3046; 3174;
   3302; 3430; 3558; 3664; 3792; 3872; 4160; 4240; 6112; 6160; 6470;
   6608; 6784; 6800; 6992; 7088; 7232; 7248; 42528; 43216; 43264;
   43472; 43504; 43600; 44016; 65296; 66720; 68912; 69734; 69872;
   69942; 70096; 70384; 70736; 70864; 71248; 71360; 71472; 71904;
   72016; 72784; 73040; 73120; 73552; 92768; 92864; 93008; 123200;
   123632; 124144; 125264; 130032]%N.

(** The five runs of mathematical digits, U+1D7CE to U+1D7FF. *)
Definition MATH_DIGITS_FIRST : N := 120782.
Definition MATH_DIGITS_LAST : N := 120831.

Definition in_run (c first : N) : bool :=
  ((first <=? c) && (c <? first + 10))%N.

Definition digit_value (c : N) : option Z :=
  match List.find (in_run c) DECIMAL_RUNS with
  | Some first => Some (Z.of_N (c - first))
  | None =>
      if ((MATH_DIGITS_FIRST <=? c) && (c <=? MATH_DIGITS_LAST))%N
      then Some (Z.of_N ((c - MATH_DIGITS_FIRST) mod 10))
      else None
  end.

(** [str.lower] on the ASCII range. *)
Definition ascii_lower (c : N) : N :=
  if ((65 <=? c) && (c <=? 90))%N then (c + 32)%N else c.

(** One literal letter of a pattern compiled with [re.IGNORECASE]: the
    text character is lowered and compared; [s] also admits the long s
    (U+017F), its only other case variant. *)
Definition icase_eq (p c : N) : bool :=
  (ascii_lower c =? p)%N || ((p =? 115) && (c =? 383))%N.

Fixpoint icase_prefix (p t : str) : option str :=
  match p, t with
  | [], _ => Some t
  | _ :: _, [] => None
  | a :: p', b :: t' => if icase_eq a b then icase_prefix p' t' else None
  end.

(** [\s*(?:years|yrs)] at the start of [t]: the number of characters
    consumed.  The star is greedy; giving whitespace back cannot help,
    since no whitespace character matches [y]. *)
Fixpoint unit_at (t : str) : option nat :=
  let word :=
    match icase_prefix (lit "years") t with
    | Some _ => Some 5
    | None => match icase_prefix (lit "yrs") t with
              | Some _ => Some 3
              | None => None
              end
    end in
  match t with
  | c :: r => if is_space c then S <$> unit_at r else word
  | [] => word
  end.

(** [(?:\+)?\s*(?:years|yrs)]: the optional plus is tried first, then
    the alternative without it. *)
Definition suffix_at (t : str) : option nat :=
  match t with
  | 43%N :: r =>
      match unit_at r with
      | Some n => Some (S n)
      | None => unit_at t
      end
  | _ => unit_at t
  end.

(** The whole pattern [(\d{1,2})(?:\+)?\s*(?:years|yrs)] at the start of
    [t]: [int(group(1))] and the length of the match.  Two digits are
    tried before one. *)
Definition years_at (t : str) : option (Z * nat) :=
  match t with
  | d1 :: r1 =>
      match digit_value d1 with
      | None => None
      | Some v1 =>
          let one := (fun _ : unit =>
                        n ← suffix_at r1; Some (v1, S n)) in
          match r1 with
          | d2 :: r2 =>
              match digit_value d2 with
              | Some v2 =>
                  match suffix_at r2 with
                  | Some n => Some ((10 * v1 + v2)%Z, S (S n))
                  | None => one tt
                  end
              | None => one tt
              end
          | [] => one tt
          end
      end
  | [] => None
  end.

(** [pattern.finditer(text)]: leftmost matches, scanning resumes after
    each match ([skip] characters of a match are still to be passed). *)
Fixpoint years_matches (skip : nat) (text : str) : list Z :=
  match text with
  | [] => []
  | _ :: r =>
      match skip with
      | S k => years_matches k r
      | O =>
          match years_at text with
          | Some (v, n) => v :: years_matches (pred n) r
          | None => years_matches 0 r
          end
      end
  end.

Definition sum_Z (l : list Z) : Z := foldr Z.add 0%Z l.

Definition estimate_years_of_experience (text : str) : option Q :=
  match years_matches 0 text with
  | [] => None
  | matches => Some (inject_Z (sum_Z matches) / inject_Z (Z.of_nat (length matches)))%Q
  end.

(** *** [split_sentences] *)

Definition is_terminator (c : N) : bool :=
  ((c =? 46) || (c =? 33) || (c =? 63))%N.

(** [re.split(r"(?<=[.!?])\s+", text)].  [sep] holds while a separator
    run is being skipped, [after] when the previous character is one of
    [.!?]; [piece] is the fragment read so far. *)
Fixpoint re_split_sent (sep after : bool) (piece text : str) : list str :=
  match text with
  | [] => [piece]
  | c :: r =>
      if is_space c && sep then re_split_sent true false piece r
      else if is_space c && after then piece :: re_split_sent true false [] r
      else re_split_sent false (is_terminator c) (piece ++ [c]) r
  end.

Definition nonempty (s : str) : bool :=
  match s with [] => false | _ => true end.

Definition split_sentences (text : str) : list str :=
  List.map strip
    (List.filter (fun s => nonempty (strip s)) (re_split_sent false false [] text)).

(** ** app/ranking/matcher.py: the three heuristic scores *)

Local Open Scope Q_scope.

(** Python's [min(a, b)]: [b] when [b < a], otherwise [a]. *)
Definition py_min (a b : Q) : Q := if Qlt_le_dec b a then b else a.

(** Truth value of a [float | None]: [None] and [0.0] are false. *)
Definition truthy (x : option Q) : bool :=
  match x with
  | Some q => negb (Qeq_bool q 0)
  | None => false
  end.

Definition _normalize_similarity (distance : Q) : Q := 1 / (1 + distance).

(** The float held by a [float | None] that tested true. *)
Definition float_of (x : option Q) : Q := default 0 x.

Definition _score_experience (jd_experience : option Q) (resume_text : str) : Q :=
  let resume_experience := estimate_years_of_experience resume_text in
  if truthy jd_experience && truthy resume_experience then
    let ratio := float_of resume_experience / float_of jd_experience in
    py_min ratio 1.2 / 1.2
  else if truthy resume_experience then
    py_min (float_of resume_experience / 10) 1.0
  else 0.4.

Definition _blend_scores (similarity skills experience : Q) : Q :=
  0.55 * similarity + 0.25 * skills + 0.2 * experience.

(** *** The experience score *)

(** The experience score as the specification words it, from the two
    estimates. *)
Definition experience_as_specified (jd resume : option Q) : Q :=
  match jd, resume with
  | Some j, Some r => py_min (r / j) 1.2 / 1.2
  | None, Some r => py_min (r / 10) 1.0
  | _, None => 0.4
  end.

(** An estimate the code acts on: a zero estimate tests false, exactly
    like a missing one. *)
Definition usable (x : option Q) : option Q :=
  match x with
  | Some q => if Qeq_bool q 0 then None else Some q
  | None => None
  end.

Local Close Scope Q_scope.

(** ** Exceptions *)

Inductive exn : Type :=
  | RuntimeError (msg : list N)
  | ValueError
  | IndexError
  | AttributeError
  | TypeError
  | RequestException   (* connection refused, timeout, ... *)
  | HTTPError          (* [raise_for_status] on a 4xx or 5xx answer *)
  | JSONDecodeError
  | ModelError.        (* the embedding model failed *)

Inductive res (A : Type) : Type :=
  | Ok (a : A)
  | Raise (e : exn).
Arguments Ok {A} a.
Arguments Raise {A} e.

#[export] Instance res_ret : MRet res := fun A a => Ok a.
#[export] Instance res_bind : MBind res := fun A B f m =>
  match m with
  | Ok a => f a
  | Raise e => Raise e
  end.

(** [try: body  except Exception: handler]. *)
Definition try_except {A} (body : res A) (handler : exn -> res A) : res A :=
  match body with
  | Ok a => Ok a
  | Raise e => handler e
  end.

(** ** app/utils/llm_client.py *)

(** Values decoded by [response.json()]. *)
#[local] Unset Elimination Schemes.
Inductive json : Type :=
  | JNull
  | JBool (b : bool)
  | JNum (q : Q)
  | JStr (s : list N)
  | JArr (items : list json)
  | JObj (fields : list (list N * json)).
#[local] Set Elimination Schemes.

(** Truth value of a decoded value, as [or] and [filter(None, _)] test it. *)
Definition json_truthy (v : json) : bool :=
  match v with
  | JNull => false
  | JBool b => b
  | JNum q => negb (Qeq_bool q 0)
  | JStr s => nonempty s
  | JArr l => match l with [] => false | _ => true end
  | JObj f => match f with [] => false | _ => true end
  end.

(** [d.get(key)] on a decoded object: the last binding of a repeated
    key wins, a missing key gives [None]. *)
Fixpoint fields_find (key : str) (fields : list (list N * json)) : option json :=
  match fields with
  | [] => None
  | (k, v) :: rest =>
      match fields_find key rest with
      | Some found => Some found
      | None => if decide (k = key) then Some v else None
      end
  end.

(** [x.get(key)]: only a dict has the method. *)
Definition json_get (key : str) (x : json) : res json :=
  match x with
  | JObj fields => Ok (default JNull (fields_find key fields))
  | _ => Raise AttributeError
  end.

Definition py_or (a b : json) : json := if json_truthy a then a else b.

(** [chunk.get("response") or chunk.get("text") or chunk.get("output")]. *)
Definition first_text (chunk : json) : res json :=
  a ← json_get (lit "response") chunk;
  b ← json_get (lit "text") chunk;
  c ← json_get (lit "output") chunk;
  Ok (py_or (py_or a b) c).

(** ["".join(items)]: every item must be a [str]. *)
Fixpoint join_empty (items : list json) : res (list N) :=
  match items with
  | [] => Ok []
  | JStr s :: rest => r ← join_empty rest; Ok (s ++ r)
  | _ :: _ => Raise TypeError
  end.

Fixpoint mapM_res {A B} (f : A -> res B) (l : list A) : res (list B) :=
  match l with
  | [] => Ok []
  | a :: rest => b ← f a; bs ← mapM_res f rest; Ok (b :: bs)
  end.

Record response : Type := {
  status_code : Z;
  json_body : res json     (* what [response.json()] does *)
}.

Definition raise_for_status (r : response) : res unit :=
  if ((400 <=? status_code r) && (status_code r <? 600))%Z
  then Raise HTTPError else Ok tt.

Definition CANDIDATE_FEEDBACK_PROMPT : list N := lit "
You are an expert technical recruiter.
Given the job description and a candidate resume, summarize:
1. Key strengths (bullet friendly sentence).
2. Potential weaknesses or red flags.
3. Provide a short reasoning paragraph (2-3 sentences) on overall fit.

Format response as:
Strengths: ...
Weaknesses: ...
Reasoning: ...

Candidate: {candidate_name}
Job Description:
{job_description}

Resume:
{resume_text}
".

(** [CANDIDATE_FEEDBACK_PROMPT.format(candidate_name=.., job_description=..,
    resume_text=..)]: the template with its three fields filled. *)
Definition format_prompt (candidate_name job_description resume_text : str) : str :=
  lit "
You are an expert technical recruiter.
Given the job description and a candidate resume, summarize:
1. Key strengths (bullet friendly sentence).
2. Potential weaknesses or red flags.
3. Provide a short reasoning paragraph (2-3 sentences) on overall fit.

Format response as:
Strengths: ...
Weaknesses: ...
Reasoning: ...

Candidate: " ++ candidate_name ++ lit "
Job Description:
" ++ job_description ++ lit "

Resume:
" ++ resume_text ++ lit "
".

Definition K_strengths : list N := lit "strengths".
Definition K_weaknesses : list N := lit "weaknesses".
Definition K_reasoning : list N := lit "reasoning".

(** [str.splitlines()]: the line boundaries of Python ([\n], [\r],
    [\r\n], [\v], [\f], FS, GS, RS, NEL, LS, PS); no empty last line. *)
Definition is_linebreak (c : N) : bool :=
  ((10 <=? c) && (c <=? 13) || (28 <=? c) && (c <=? 30)
   || (c =? 133) || (c =? 8232) || (c =? 8233))%N.

Fixpoint splitlines_from (after_cr : bool) (cur text : str) : list str :=
  match text with
  | [] => if nonempty cur then [cur] else []
  | c :: r =>
      if after_cr && (c =? 10)%N then splitlines_from false cur r
      else if is_linebreak c then cur :: splitlines_from (c =? 13)%N [] r
      else splitlines_from false (cur ++ [c]) r
  end.

Definition splitlines (text : str) : list str := splitlines_from false [] text.

(** [line.split(":", 1)[-1]]: what follows the first colon, or the
    whole line when it has none. *)
Fixpoint after_colon (line : str) : option str :=
  match line with
  | [] => None
  | c :: r => if (c =? 58)%N then Some r else after_colon r
  end.

Definition split_colon_last (line : str) : str := default line (after_colon line).

Section Collaborators.

(** [str.lower], the case mapping of the Unicode database. *)
Variable lower : list N -> list N.

(** [requests.post(self.ollama_url, json=payload, timeout=120)] for a
    payload carrying the given prompt: an answer, or an exception of
    the transport. *)
Variable requests_post : list N -> res response.

(** [str(data)] on a decoded object. *)
Variable py_str : json -> list N.

(** The method returns whatever the [or] chain selects, which need not
    be a [str]. *)
Definition _call_ollama (prompt : str) : res json :=
  resp ← requests_post prompt;
  _ ← raise_for_status resp;
  data ← json_body resp;
  match data with
  | JArr items =>
      chunks ← mapM_res first_text items;
      s ← join_empty (List.filter json_truthy chunks);
      Ok (JStr s)
  | _ =>
      a ← json_get (lit "response") data;
      b ← json_get (lit "text") data;
      c ← json_get (lit "output") data;
      Ok (py_or (py_or (py_or a b) c) (JStr (py_str data)))
  end.

(** The loop body of [_parse_llm_response]; the state is the
    [sections] dict and [current_key]. *)
Definition start_section (key line : str) (sections : gmap (list N) (list N))
  : gmap (list N) (list N) * option (list N) :=
  (<[key := strip (split_colon_last line)]> sections, Some key).

Definition parse_line (st : gmap (list N) (list N) * option (list N)) (line : str)
  : gmap (list N) (list N) * option (list N) :=
  let '(sections, current_key) := st in
  let lowered := lower line in
  if contains (lit "strength") lowered then start_section K_strengths line sections
  else if contains (lit "weakness") lowered then start_section K_weaknesses line sections
  else if contains (lit "reason") lowered then start_section K_reasoning line sections
  else match current_key with
       | Some key => (alter (fun v => v ++ SP :: strip line) key sections, current_key)
       | None => st
       end.

Definition empty_sections : gmap (list N) (list N) :=
  <[K_strengths := []]> (<[K_weaknesses := []]> (<[K_reasoning := []]> ∅)).

(** [v.strip() or "Not provided."]. *)
Definition or_not_provided (v : str) : str :=
  if nonempty (strip v) then strip v else lit "Not provided.".

Definition _parse_llm_response (content : str) : gmap (list N) (list N) :=
  let '(sections, _) := foldl parse_line (empty_sections, None) (splitlines content) in
  or_not_provided <$> sections.

Definition heuristic_feedback (resume_text : str) : gmap (list N) (list N) :=
  let sentences := split_sentences resume_text in
  let summary :=
    if decide (sentences = []) then lit "Summary unavailable."
    else join_sp (take 3 sentences) in
  <[K_strengths := lit "Solid baseline profile with relevant experience."]>
    (<[K_weaknesses := lit "Needs deeper alignment verification via interview."]>
       (<[K_reasoning := summary]> ∅)).

(** The [try] block of [analyze_candidate]. *)
Definition ollama_analysis (candidate_name job_description resume_text : str)
  : res (gmap (list N) (list N)) :=
  let prompt := format_prompt candidate_name job_description resume_text in
  content ← _call_ollama prompt;
  match content with
  | JStr s => Ok (_parse_llm_response s)
  | _ => Raise AttributeError        (* no [splitlines] on a non-str *)
  end.

(** [except Exception] ends the [try] block and control falls through
    to the heuristic summary, as it does when the template is empty. *)
Definition analyze_candidate (candidate_name job_description resume_text : str)
  : res (gmap (list N) (list N)) :=
  let heuristics := Ok (heuristic_feedback resume_text) in
  if nonempty CANDIDATE_FEEDBACK_PROMPT then
    try_except (ollama_analysis candidate_name job_description resume_text)
               (fun _ => heuristics)
  else heuristics.

(** *** The line scan, as the claim words it

    "A line containing strength starts the strengths section, similarly
    weakness and reason for the other sections": each section has its
    keyword, and a line is a header of every section whose keyword it
    contains. *)

Definition keyword_of (key : str) : str :=
  if decide (key = K_strengths) then lit "strength"
  else if decide (key = K_weaknesses) then lit "weakness"
  else lit "reason".

Definition mentions (key line : str) : bool :=
  contains (keyword_of key) (lower line).

Definition is_header (line : str) : bool :=
  mentions K_strengths line || mentions K_weaknesses line
  || mentions K_reasoning line.

(** The lines that follow, up to the next header. *)
Fixpoint lines_before_header (lines : list (list N)) : list (list N) :=
  match lines with
  | [] => []
  | l :: rest => if is_header l then [] else l :: lines_before_header rest
  end.

(** The text of section [key] as worded: its last header line gives
    the text after the first colon, the lines before the next header
    are joined to it with spaces. *)
Fixpoint section_as_stated (key : str) (lines : list (list N)) : option (list N) :=
  match lines with
  | [] => None
  | l :: rest =>
      match section_as_stated key rest with
      | Some t => Some t
      | None =>
          if mentions key l
          then Some (join_sp (strip (split_colon_last l)
                                :: List.map strip (lines_before_header rest)))
          else None
      end
  end.

(** A section left missing or empty becomes "Not provided.". *)
Definition provided (section : option (list N)) : list N :=
  match section with
  | Some t => if nonempty (strip t) then strip t else lit "Not provided."
  | None => lit "Not provided."
  end.

Definition parse_as_stated (content : str) : gmap (list N) (list N) :=
  <[K_strengths := provided (section_as_stated K_strengths (splitlines content))]>
    (<[K_weaknesses := provided (section_as_stated K_weaknesses (splitlines content))]>
       (<[K_reasoning := provided (section_as_stated K_reasoning (splitlines content))]> ∅)).

(** *** The line scan with the order of precedence

    The same scan where a line is a header of one section only: of
    strengths when it contains "strength", else of weaknesses when it
    contains "weakness", else of reasoning when it contains "reason". *)

Definition header_of (line : str) : option (list N) :=
  if mentions K_strengths line then Some K_strengths
  else if mentions K_weaknesses line then Some K_weaknesses
  else if mentions K_reasoning line then Some K_reasoning
  else None.

(** The lines that follow, up to the next header. *)
Fixpoint continuation (lines : list (list N)) : list (list N) :=
  match lines with
  | [] => []
  | l :: rest =>
      match header_of l with
      | Some _ => []
      | None => l :: continuation rest
      end
  end.

(** The text of section [key]: its last header line gives the text
    after the first colon, the lines up to the next header are joined
    to it with spaces. *)
Fixpoint section_text (key : str) (lines : list (list N)) : option (list N) :=
  match lines with
  | [] => None
  | l :: rest =>
      match section_text key rest with
      | Some t => Some t
      | None =>
          if decide (header_of l = Some key)
          then Some (join_sp (strip (split_colon_last l)
                                :: List.map strip (continuation rest)))
          else None
      end
  end.

Definition section_or_default (key content : str) : str :=
  provided (section_text key (splitlines content)).

Definition parse_by_precedence (content : str) : gmap (list N) (list N) :=
  <[K_strengths := section_or_default K_strengths content]>
    (<[K_weaknesses := section_or_default K_weaknesses content]>
       (<[K_reasoning := section_or_default K_reasoning content]> ∅)).

(** What the lines up to the next header add to the open section. *)
Definition appended (lines : list (list N)) : list N :=
  concat (List.map (cons SP) (List.map strip (continuation lines))).

(** ** app/utils/text_utils.py, continued: [extract_skills] *)

Definition COMMON_SKILLS : gset (list N) :=
  list_to_set (lit <$> [
    "python"; "java"; "c++"; "sql"; "aws"; "azure"; "gcp"; "docker";
    "kubernetes"; "pandas"; "numpy"; "tensorflow"; "pytorch"; "nlp";
    "machine learning"; "data analysis"; "react"; "javascript"; "django";
    "flask"; "spark"; "hadoop"; "tableau" ]%string).

Definition extract_skills (text : str) : gset (list N) :=
  let lowered := lower text in
  filter (fun skill => contains skill lowered = true) COMMON_SKILLS.

(** ** app/embeddings/embedding_service.py *)

(** A two-dimensional numpy array of shape [(length rows, width)]. *)
Record ndarray : Type := {
  rows : list (list Q);
  width : nat
}.

(** [np.zeros((0, 384), dtype=np.float32)]. *)
Definition zeros_0_384 : ndarray := {| rows := []; width := 384 |}.

(** [a.size]: the number of elements. *)
Definition nd_size (a : ndarray) : nat := length (rows a) * width a.

(** A resume as [build_store] reads it: [resume["text"]] and
    [resume.get("metadata", {})]. *)
Record resume : Type := {
  text : list N;
  metadata : gmap (list N) (list N)
}.

(** The manager object and the two files under its directory
    ([None]: the file does not exist). *)
Record VectorStoreManager : Type := {
  _resume_lookup : gmap (list N) resume;
  _vectors : ndarray;
  _metadatas : list (gmap (list N) (list N));
  vectors_npz : option ndarray;
  meta_json : option (list (gmap (list N) (list N)))
}.

(** [EmbeddingService.embed_documents]: the model's answer for a batch,
    or its failure. *)
Variable embed_documents : list (list N) -> res ndarray.

(** sklearn's cosine similarity of two vectors of one length. *)
Variable cosine : list Q -> list Q -> Q.

(** [np.argsort] with its default [kind]. *)
Variable argsort : list Q -> list nat.

Definition _persist (self : VectorStoreManager) : VectorStoreManager :=
  {| _resume_lookup := _resume_lookup self;
     _vectors := _vectors self;
     _metadatas := _metadatas self;
     vectors_npz := Some (_vectors self);
     meta_json := Some (_metadatas self) |}.

Definition K_candidate_id : list N := lit "candidate_id".

(** [str(idx)]. *)
Definition str_of_nat (idx : nat) : list N := lit (pretty idx).

(** The loop of [build_store] from index [idx] on: the texts, the
    metadata dicts and the additions to the lookup. *)
Fixpoint index_resumes (idx : nat) (resumes : list resume)
  : list (list N) * list (gmap (list N) (list N)) * gmap (list N) resume :=
  match resumes with
  | [] => ([], [], ∅)
  | r :: rest =>
      let resume_id := str_of_nat idx in
      let '(texts, metadatas, lookup) := index_resumes (S idx) rest in
      (text r :: texts,
       (metadata r ∪ {[ K_candidate_id := resume_id ]}) :: metadatas,
       (* later ids overwrite earlier ones; they are all distinct *)
       lookup ∪ {[ resume_id := r ]})
  end.

Definition build_store (self : VectorStoreManager) (resumes : list resume)
  : VectorStoreManager * res unit :=
  let '(texts, metadatas, lookup) := index_resumes 1 resumes in
  (* self._resume_lookup = {} and the loop's assignments *)
  let self1 :=
    {| _resume_lookup := lookup;
       _vectors := _vectors self;
       _metadatas := _metadatas self;
       vectors_npz := vectors_npz self;
       meta_json := meta_json self |} in
  match texts with
  | [] =>
      ({| _resume_lookup := lookup;
          _vectors := zeros_0_384;
          _metadatas := [];
          vectors_npz := vectors_npz self;
          meta_json := meta_json self |}, Ok tt)
  | _ =>
      match embed_documents texts with
      | Raise e => (self1, Raise e)
      | Ok embeddings =>
          (_persist
             {| _resume_lookup := lookup;
                _vectors := embeddings;
                _metadatas := metadatas;
                vectors_npz := vectors_npz self;
                meta_json := meta_json self |}, Ok tt)
      end
  end.

(** [cosine_similarity(query_vector.reshape(1, -1), self._vectors)[0]]:
    sklearn refuses arrays of different widths. *)
Definition cosine_similarity (query_vector : list Q) (a : ndarray) : res (list Q) :=
  if decide (length query_vector = width a)
  then Ok (cosine query_vector <$> rows a)
  else Raise ValueError.

(** Truth value of an [int | None]. *)
Definition truthy_int (k : option Z) : bool :=
  match k with
  | Some z => negb (z =? 0)%Z
  | None => false
  end.

(** [l[:k]] for an integer [k]. *)
Definition slice_to {A} (k : Z) (l : list A) : list A :=
  if (0 <=? k)%Z then take (Z.to_nat k) l
  else take (length l - Z.to_nat (- k)) l.

(** [l[idx]]. *)
Definition item {A} (l : list A) (idx : nat) : res A :=
  match l !! idx with
  | Some a => Ok a
  | None => Raise IndexError
  end.

Definition NOT_INITIALIZED : list N := lit "Vector store is not initialized.".

Definition similarity_search_with_scores
  (self : VectorStoreManager) (query_vector : list Q) (k : option Z)
  : res (list (gmap (list N) (list N) * Q)) :=
  if decide (nd_size (_vectors self) = 0) then Raise (RuntimeError NOT_INITIALIZED)
  else
    sims ← cosine_similarity query_vector (_vectors self);
    let order := argsort (Qopp <$> sims) in
    let order := if truthy_int k then slice_to (default 0%Z k) order else order in
    mapM_res (fun idx =>
                metadata ← item (_metadatas self) idx;
                sim ← item sims idx;
                Ok (metadata, (1 - sim)%Q)) order.

(** [self._resume_lookup.get(resume_id)], where [resume_id] is itself
    the result of a [get]. *)
Definition get_resume_by_id (self : VectorStoreManager) (resume_id : option (list N))
  : option resume :=
  resume_id ≫= fun id => _resume_lookup self !! id.

(** ** app/ranking/matcher.py: [CandidateScorer] *)

Record CandidateScore : Type := {
  candidate_name : list N;
  file_name : list N;
  similarity : Q;
  skill_alignment : Q;
  experience_score : Q;
  match_score : Q;
  llm_feedback : gmap (list N) (list N)
}.

Definition _score_skills (jd_skills : gset (list N)) (resume_text : str) : Q :=
  if decide (jd_skills = ∅) then 0.5%Q
  else
    let resume_skills := extract_skills resume_text in
    let overlap := jd_skills ∩ resume_skills in
    (inject_Z (Z.of_nat (size overlap)) / inject_Z (Z.of_nat (size jd_skills)))%Q.

(** Rounding to the nearest integer, halves to the even neighbour. *)
Definition round_half_even (x : Q) : Z :=
  let f := Qfloor x in
  match (x - inject_Z f ?= 1 # 2)%Q with
  | Lt => f
  | Gt => (f + 1)%Z
  | Eq => if Z.even f then f else (f + 1)%Z
  end.

(** [round(x, 2)]. *)
Definition round2 (x : Q) : Q := (inject_Z (round_half_even (x * 100)) / 100)%Q.

(** [metadata.get(key, fallback)]. *)
Definition get_or (m : gmap (list N) (list N)) (key fallback : str) : str :=
  default fallback (m !! key).

(** One turn of the loop of [evaluate]: [None] stands for [continue]. *)
Definition evaluate_one (self : VectorStoreManager) (jd_text : str)
  (jd_skills : gset (list N)) (jd_experience : option Q)
  (hit : gmap (list N) (list N) * Q) : res (option CandidateScore) :=
  let '(metadata, score) := hit in
  let resume_id := metadata !! K_candidate_id in
  match get_resume_by_id self resume_id with
  | None => Ok None
  | Some resume_entry =>
      let resume_text := text resume_entry in
      let cleaned_resume := clean_text resume_text in
      let similarity := _normalize_similarity score in
      let skill_alignment := _score_skills jd_skills resume_text in
      let experience_score := _score_experience jd_experience resume_text in
      let match_score := _blend_scores similarity skill_alignment experience_score in
      feedback ← analyze_candidate (get_or metadata (lit "candidate_name") (lit "Candidate"))
                   jd_text cleaned_resume;
      Ok (Some
            {| candidate_name := get_or metadata (lit "candidate_name") (lit "Candidate");
               file_name := get_or metadata (lit "file_name") (lit "N/A");
               similarity := round2 (similarity * 100);
               skill_alignment := round2 (skill_alignment * 100);
               experience_score := round2 (experience_score * 100);
               match_score := round2 (match_score * 100);
               llm_feedback := feedback |})
  end.

(** [sorted(evaluations, key=lambda c: c.match_score, reverse=True)]:
    descending, candidates of equal score in their given order. *)
Fixpoint insert_desc (c : CandidateScore) (sorted : list CandidateScore)
  : list CandidateScore :=
  match sorted with
  | [] => [c]
  | d :: rest =>
      if Qlt_le_dec (match_score c) (match_score d)
      then d :: insert_desc c rest
      else c :: sorted
  end.

Definition sorted_desc (l : list CandidateScore) : list CandidateScore :=
  foldr insert_desc [] l.

Definition evaluate (self : VectorStoreManager) (jd_text : str)
  (jd_vector : list Q) (top_k : option Z) : res (list CandidateScore) :=
  search_results ← similarity_search_with_scores self jd_vector top_k;
  let jd_skills := extract_skills jd_text in
  let jd_experience := estimate_years_of_experience jd_text in
  evaluations ← mapM_res (evaluate_one self jd_text jd_skills jd_experience) search_results;
  Ok (sorted_desc (omap id evaluations)).

End Collaborators.

(** ** Collaborators to run the program with *)

Definition dot (x y : list Q) : Q :=
  foldr Qplus 0%Q (zip_with Qmult x y).

(** The square root of a rational square. *)
Definition sqrt_of_square (x : Q) : Q :=
  let r := Qred x in
  (inject_Z (Z.sqrt (Qnum r)) / inject_Z (Z.sqrt (Zpos (Qden r))))%Q.

(** The cosine similarity of two vectors whose norms are rational; as in
    sklearn, a zero norm is replaced by one. *)
Definition cosine_of_rational_norms (x y : list Q) : Q :=
  let norm v :=
    let n := sqrt_of_square (dot v v) in
    if Qeq_bool n 0 then 1%Q else n in
  (dot x y / (norm x * norm y))%Q.

Definition key_at (keys : list Q) (i : nat) : Q := default 0%Q (keys !! i).

(** Sorting indices by insertion; [before a b] decides whether an index
    of key [a] goes in front of one of key [b] that came later in the
    array. *)
Fixpoint insert_index (before : Q -> Q -> bool) (keys : list Q) (i : nat)
  (sorted : list nat) : list nat :=
  match sorted with
  | [] => [i]
  | j :: rest =>
      if before (key_at keys i) (key_at keys j) then i :: sorted
      else j :: insert_index before keys i rest
  end.

Definition argsort_by (before : Q -> Q -> bool) (keys : list Q) : list nat :=
  foldr (insert_index before keys) [] (seq 0 (length keys)).

(** Equal keys keep the order of the array, as [kind="stable"] would. *)
Definition argsort_stable : list Q -> list nat := argsort_by Qle_bool.

(** *** numpy's default sort

    [np.argsort(-sims)] sorts with the default [kind="quicksort"], which
    numpy documents as an introsort that is not stable.  Below is its
    portable implementation, [aquicksort_] of numpy's
    npysort/quicksort.cpp, on the array [tosort] of indices into the
    keys [v]: a range of more than [SMALL_QUICKSORT] + 1 indices is
    partitioned around its median of three, a shorter one is sorted by
    insertion.  Pointers into [tosort] are positions. *)

Definition SMALL_QUICKSORT : nat := 16.

(** [a < b] on keys that are numbers. *)
Definition less (a b : Q) : bool := negb (Qle_bool b a).

(** [v[*p]]. *)
Definition key_of (v : list Q) (tosort : list nat) (p : nat) : Q :=
  key_at v (default 0%nat (tosort !! p)).

Definition INTP_SWAP (tosort : list nat) (p q : nat) : list nat :=
  match tosort !! p, tosort !! q with
  | Some x, Some y => <[p := y]> (<[q := x]> tosort)
  | _, _ => tosort
  end.

(** Swaps the indices at [p] and [q] when [less(v[*p], v[*q])]. *)
Definition swap_if_less (v : list Q) (tosort : list nat) (p q : nat) : list nat :=
  if less (key_of v tosort p) (key_of v tosort q) then INTP_SWAP tosort p q
  else tosort.

(** [do { ++pi; } while (less(v[*pi], vp))]: the pivot, parked at
    [pr - 1], stops the scan; [room] is the distance to [pr]. *)
Fixpoint scan_up (room : nat) (v : list Q) (tosort : list nat) (vp : Q) (pi : nat)
  : nat :=
  match room with
  | O => pi
  | S room =>
      if less (key_of v tosort (S pi)) vp then scan_up room v tosort vp (S pi)
      else S pi
  end.

(** [do { --pj; } while (less(vp, v[*pj]))]: the least of the three
    sampled keys, at [pl], stops the scan. *)
Fixpoint scan_down (v : list Q) (tosort : list nat) (vp : Q) (pj : nat) : nat :=
  match pj with
  | O => O
  | S pj => if less vp (key_of v tosort pj) then scan_down v tosort vp pj else pj
  end.

(** The [for (;;)] loop: scan from both ends, stop when the pointers
    meet, else swap and go on. *)
Fixpoint partition_loop (fuel : nat) (v : list Q) (tosort : list nat) (vp : Q)
  (pi pj pr : nat) : list nat * nat :=
  match fuel with
  | O => (tosort, pi)
  | S fuel =>
      let pi := scan_up (pr - pi) v tosort vp pi in
      let pj := scan_down v tosort vp pj in
      if pj <=? pi then (tosort, pi)
      else partition_loop fuel v (INTP_SWAP tosort pi pj) vp pi pj pr
  end.

(** One partition of the range [pl..pr]: the new [tosort] and the
    final place [pi] of the pivot. *)
Definition partition (v : list Q) (tosort : list nat) (pl pr : nat) : list nat * nat :=
  let pm := pl + (pr - pl) / 2 in
  let tosort := swap_if_less v tosort pm pl in
  let tosort := swap_if_less v tosort pr pm in
  let tosort := swap_if_less v tosort pm pl in
  let vp := key_of v tosort pm in
  let tosort := INTP_SWAP tosort pm (pr - 1) in
  let '(tosort, pi) := partition_loop (pr - pl) v tosort vp pl (pr - 1) pr in
  (INTP_SWAP tosort pi (pr - 1), pi).

(** [while (pj > pl && less(vp, v[*pk])) { *pj-- = *pk--; } *pj = vi;]
    with [pk = pj - 1] and [vp = v[vi]]. *)
Fixpoint shift_right (v : list Q) (tosort : list nat) (pl vi pj : nat) : list nat :=
  match pj with
  | O => <[O := vi]> tosort
  | S pk =>
      if (pl <? S pk) && less (key_at v vi) (key_of v tosort pk)
      then shift_right v (<[S pk := default 0%nat (tosort !! pk)]> tosort) pl vi pk
      else <[S pk := vi]> tosort
  end.

(** [for (pi = pl + 1; pi <= pr; ++pi)]: the insertion sort of a short
    range. *)
Fixpoint insertion_sort (count : nat) (v : list Q) (tosort : list nat) (pl pi : nat)
  : list nat :=
  match count with
  | O => tosort
  | S count =>
      insertion_sort count v
        (shift_right v tosort pl (default 0%nat (tosort !! pi)) pi) pl (S pi)
  end.

(** The sort of the range [pl..pr].  The C code goes on with the
    smaller part and keeps the larger one, with the depth left, on a
    stack; the parts do not overlap, so sorting one after the other by
    recursion gives the same array.  A part taken from the stack with a
    negative depth is sorted by heap sort, which is left out here: the
    answer is then [None] (as it is when [fuel], one per nested part,
    runs out, which a number of elements plus one never does). *)
Fixpoint aquicksort_range (fuel : nat) (v : list Q) (tosort : list nat)
  (pl pr : nat) (cdepth : Z) : option (list nat) :=
  match fuel with
  | O => None
  | S fuel =>
      if SMALL_QUICKSORT <? pr - pl then
        let '(tosort, pi) := partition v tosort pl pr in
        let cdepth := (cdepth - 1)%Z in
        let '(smaller, larger) :=
          if pi - pl <? pr - pi then ((pl, pi - 1), (S pi, pr))
          else ((S pi, pr), (pl, pi - 1)) in
        tosort ← aquicksort_range fuel v tosort smaller.1 smaller.2 cdepth;
        if (cdepth <? 0)%Z then None
        else aquicksort_range fuel v tosort larger.1 larger.2 cdepth
      else Some (insertion_sort (pr - pl) v tosort pl (S pl))
  end.

(** [npy_get_msb(num) * 2], the depth allowed to the partitions. *)
Definition depth_limit (num : nat) : Z := (2 * Z.log2 (Z.of_nat num))%Z.

Definition aquicksort (v : list Q) : option (list nat) :=
  let num := length v in
  aquicksort_range (S num) v (seq 0 num) 0 (num - 1) (depth_limit num).

(** [np.argsort] of a one-dimensional array of numbers, default
    [kind], where the quicksort does not hand over to heap sort. *)
Definition numpy_argsort (v : list Q) : list nat := default [] (aquicksort v).

(** A model that fails on every batch. *)
Definition embed_nothing (texts : list (list N)) : res ndarray := Raise ModelError.

(** A model of width two whose vectors have norm five. *)
Definition embed_pythagorean (texts : list (list N)) : res ndarray :=
  Ok {| rows := (fun t => if Nat.even (length t) then [3; 4] else [4; 3])%Q <$> texts;
        width := 2 |}.

(** The manager right after [__init__] on an empty directory. *)
Definition fresh_store : VectorStoreManager :=
  {| _resume_lookup := ∅;
     _vectors := zeros_0_384;
     _metadatas := [];
     vectors_npz := None;
     meta_json := None |}.

Definition upload (name file body : string) : resume :=
  {| text := lit body;
     metadata := {[ lit "candidate_name" := lit name; lit "file_name" := lit file ]} |}.

Definition ann : resume :=
  upload "Ann" "ann.pdf" "Python and AWS for 5 years. Built data pipelines.".
Definition bob : resume :=
  upload "Bob" "bob.pdf" "Java developer, 1 year. Knows SQL.".
Definition cyd : resume :=
  upload "Cyd" "cyd.pdf" "Python and AWS for 10 years! Led teams.".

(** A store of two resumes at different distances from [[3; 4]]. *)
Definition pair_store : VectorStoreManager :=
  (build_store embed_pythagorean fresh_store [ann; bob]).1.

(** A store of eighteen uploads of the same resume: eighteen times the
    same embedding, with the candidate ids "1" to "18". *)
Definition duplicates_store : VectorStoreManager :=
  (build_store embed_pythagorean fresh_store (replicate 18 ann)).1.

(** ** Vocabulary of the statements *)

(** Indices in the order of their keys. *)
Definition index_ordered (keys : list Q) (i j : nat) : Prop :=
  (key_at keys i <= key_at keys j)%Q.

(** What numpy documents of [argsort]: the indices of the array, each
    once, in an order that sorts it. *)
Definition argsort_contract (argsort : list Q -> list nat) : Prop :=
  forall keys,
    argsort keys ≡ₚ seq 0 (length keys) /\
    Sorted (index_ordered keys) (argsort keys).

(** The invariant of the store: one metadata dict per vector, and
    vectors of the embedding model's (positive) width. *)
Definition store_wf (self : VectorStoreManager) : Prop :=
  length (_metadatas self) = length (rows (_vectors self)) /\
  0 < width (_vectors self).

(** One (metadata, distance) pair per stored vector, in the order of
    insertion. *)
Definition scored (cosine : list Q -> list Q -> Q) (self : VectorStoreManager)
  (query_vector : list Q) : list (gmap (list N) (list N) * Q) :=
  zip (_metadatas self) ((fun v => (1 - cosine query_vector v)%Q) <$> rows (_vectors self)).

Definition by_distance (a b : gmap (list N) (list N) * Q) : Prop := (a.2 <= b.2)%Q.

(** A stable sort by ascending distance. *)
Fixpoint insert_by_distance (p : gmap (list N) (list N) * Q)
  (sorted : list (gmap (list N) (list N) * Q)) : list (gmap (list N) (list N) * Q) :=
  match sorted with
  | [] => [p]
  | q :: rest =>
      if Qle_bool p.2 q.2 then p :: sorted
      else q :: insert_by_distance p rest
  end.

Definition stable_by_distance (l : list (gmap (list N) (list N) * Q))
  : list (gmap (list N) (list N) * Q) :=
  foldr insert_by_distance [] l.

(** The files hold what the manager holds in memory. *)
Definition persisted (self : VectorStoreManager) : Prop :=
  vectors_npz self = Some (_vectors self) /\
  meta_json self = Some (_metadatas self).

(** The three in-memory structures of a manager. *)
Definition structures (self : VectorStoreManager)
  : gmap (list N) resume * ndarray * list (gmap (list N) (list N)) :=
  (_resume_lookup self, _vectors self, _metadatas self).


(** A service that cannot be reached. *)
Definition unreachable (prompt : list N) : res response := Raise RequestException.


(** [str.lower] restricted to ASCII letters. *)
Definition lower_ascii (s : list N) : list N := List.map ascii_lower s.

Definition no_repr (data : json) : list N := [].

Definition python_jd : list N := lit "Python and AWS, 4 years".

(** The response of the specification's example. *)
Definition example_response : list N := lit "Strengths: Good coder
Weaknesses: slow
Reasoning: solid fit".

(** [str.lower] on a text of ASCII characters lowers A to Z and keeps
    the rest. *)
Definition lowers_ascii (lower : list N -> list N) : Prop :=
  forall s, Forall (fun c => (c < 128)%N) s -> lower s = List.map ascii_lower s.


(** The local variables of [similarity_search_with_scores] on a store
    that passed the two checks: [sims], [order] and the pair appended
    for [idx]. *)
Definition sims_of (cosine : list Q -> list Q -> Q) (self : VectorStoreManager)
  (query_vector : list Q) : list Q :=
  cosine query_vector <$> rows (_vectors self).

Definition order_of (cosine : list Q -> list Q -> Q) (argsort : list Q -> list nat)
  (self : VectorStoreManager) (query_vector : list Q) : list nat :=
  argsort (Qopp <$> sims_of cosine self query_vector).

Definition hit_of (cosine : list Q -> list Q -> Q) (self : VectorStoreManager)
  (query_vector : list Q) (idx : nat) : gmap (list N) (list N) * Q :=
  (default ∅ (_metadatas self !! idx),
   (1 - key_at (sims_of cosine self query_vector) idx)%Q).

(** ** app/utils/text_utils.py, continued: [clean_llm_text] *)

Definition STAR : N := 42%N.

(** [text.replace("***", "")]: occurrences are removed from left to
    right, without overlap. *)
Fixpoint remove_triple_star (text : list N) : list N :=
  match text with
  | c :: ((d :: ((e :: rest) as tl2)) as tl) =>
      if (c =? STAR)%N && (d =? STAR)%N && (e =? STAR)%N
      then remove_triple_star rest
      else c :: remove_triple_star tl
  | c :: tl => c :: remove_triple_star tl
  | [] => []
  end.

(** [text.replace("**", "")]. *)
Fixpoint remove_double_star (text : list N) : list N :=
  match text with
  | c :: ((d :: rest) as tl) =>
      if (c =? STAR)%N && (d =? STAR)%N
      then remove_double_star rest
      else c :: remove_double_star tl
  | c :: tl => c :: remove_double_star tl
  | [] => []
  end.

(** [str.split()] with no argument: the maximal runs of characters
    that are not whitespace; [word] is the run being read. *)
Fixpoint split_ws_from (word text : list N) : list (list N) :=
  match text with
  | [] => if nonempty word then [word] else []
  | c :: rest =>
      if is_space c
      then (if nonempty word then word :: split_ws_from [] rest
            else split_ws_from [] rest)
      else split_ws_from (word ++ [c]) rest
  end.

Definition split_ws (text : list N) : list (list N) := split_ws_from [] text.

Definition clean_llm_text (text : list N) : list N :=
  if nonempty text then
    let sanitized := remove_double_star (remove_triple_star text) in
    join_sp (split_ws sanitized)
  else [].

(** No two asterisks side by side ([prev]: an asterisk precedes). *)
Fixpoint no_bold_marker (prev : bool) (text : list N) : bool :=
  match text with
  | [] => true
  | c :: rest =>
      if (c =? STAR)%N then negb prev && no_bold_marker true rest
      else no_bold_marker false rest
  end.

(** ** app/utils/llm_client.py, continued: the health probe *)

(** [text.split(sep, 1)[0]] for a non-empty [sep]: what precedes the
    first occurrence of [sep], or the whole text. *)
Fixpoint before_first (sep text : list N) : list N :=
  if starts_with sep text then []
  else match text with
       | [] => []
       | c :: rest => c :: before_first sep rest
       end.

Definition _get_base_url (ollama_url : list N) : list N :=
  before_first (lit "/api") ollama_url.

(** [text.rstrip("/")]. *)
Fixpoint rstrip_slash (text : list N) : list N :=
  match text with
  | [] => []
  | c :: rest =>
      match rstrip_slash rest with
      | [] => if (c =? 47)%N then [] else [c]
      | r => c :: r
      end
  end.

(** [_parse_model_list]: the items appended to [models]. *)
Definition model_name (item : json) : option json :=
  match item with
  | JObj fields =>
      let name := py_or (default JNull (fields_find (lit "name") fields))
                        (default JNull (fields_find (lit "model") fields)) in
      if json_truthy name then Some name else None
  | JStr s => Some (JStr s)
  | _ => None
  end.

Definition _parse_model_list (data : json) : list json :=
  let entries :=
    match data with
    | JObj fields =>
        py_or (py_or (default JNull (fields_find (lit "models") fields))
                     (default JNull (fields_find (lit "data") fields)))
              (JArr [])
    | _ => data
    end in
  match entries with
  | JArr items => omap model_name items
  | _ => []
  end.

(** The dict returned by [health_check]. *)
Record health : Type := {
  ok : bool;
  msg : list N;
  models : option (list json)
}.

Definition ENDPOINTS : list (list N) :=
  [lit "/api/models"; lit "/api/tags"; lit "/api/status"].

Section HealthCheck.

(** [requests.get(url, timeout=timeout)]. *)
Variable requests_get : list N -> res response.

(** One turn of the loop: [Some] is a [return], [None] falls through
    to the next endpoint (also by [except Exception: continue]). *)
Definition probe_endpoint (url : list N) : option health :=
  match requests_get url with
  | Raise _ => None
  | Ok resp =>
      if (status_code resp =? 200)%Z then
        match json_body resp with
        | Raise _ => None
        | Ok data =>
            Some {| ok := true; msg := lit "Ollama reachable";
                    models := Some (_parse_model_list data) |}
        end
      else if (status_code resp =? 404)%Z then
        Some {| ok := true; msg := lit "Ollama reachable (no model list)";
                models := Some [] |}
      else None
  end.

Fixpoint probe_endpoints (base_url : list N) (endpoints : list (list N))
  : option health :=
  match endpoints with
  | [] => None
  | path :: rest =>
      match probe_endpoint (base_url ++ path) with
      | Some h => Some h
      | None => probe_endpoints base_url rest
      end
  end.

Definition health_check (ollama_url : list N) : health :=
  let base_url := rstrip_slash (_get_base_url ollama_url) in
  default {| ok := false; msg := lit "Unable to reach Ollama"; models := None |}
          (probe_endpoints base_url ENDPOINTS).

(** The endpoint answers in a way the probe accepts: status 404, or
    status 200 with a body that decodes. *)
Definition answers (url : list N) : bool :=
  match requests_get url with
  | Raise _ => false
  | Ok resp =>
      if (status_code resp =? 200)%Z
      then match json_body resp with Ok _ => true | Raise _ => false end
      else (status_code resp =? 404)%Z
  end.

End HealthCheck.

(** A server that knows only [/api/tags]. *)
Definition tags_only (url : list N) : res response :=
  if decide (url = lit "http://127.0.0.1:11434/api/tags") then
    Ok {| status_code := 200;
          json_body := Ok (JObj [(lit "models",
                                  JArr [JObj [(lit "name", JStr (lit "gemma3:1b"))]])]) |}
  else Ok {| status_code := 500; json_body := Raise JSONDecodeError |}.

Definition DEFAULT_OLLAMA_URL : list N := lit "http://127.0.0.1:11434/api/generate".

(** A service that answers every prompt with one fixed text. *)
Definition answering (content : list N) (prompt : list N) : res response :=
  Ok {| status_code := 200;
        json_body := Ok (JObj [(lit "model", JStr (lit "gemma3:1b"));
                               (lit "response", JStr content)]) |}.

(** The body of Ollama's model listing for the given model names. *)
Definition tags_listing (names : list (list N)) : json :=
  JObj [(lit "models", JArr ((fun n => JObj [(lit "name", JStr n)]) <$> names))].

(** ** app/embeddings/embedding_service.py, continued: the warm start *)

(** What [_load] finds at a path: no file, a file [np.load] or
    [json.load] rejects, or a file holding a value. *)
Inductive stored (A : Type) : Type :=
  | Missing
  | Unreadable
  | Holds (a : A).
Arguments Missing {A}.
Arguments Unreadable {A}.
Arguments Holds {A} a.

Definition on_disk {A} (file : option A) : stored A :=
  match file with
  | Some a => Holds a
  | None => Missing
  end.

Definition exists_ {A} (file : stored A) : bool :=
  match file with
  | Missing => false
  | _ => true
  end.

(** [_load]: both files must exist; any exception while reading them
    resets the two structures. *)
Definition _load (vectors_file : stored ndarray)
  (meta_file : stored (list (gmap (list N) (list N))))
  (self : VectorStoreManager) : VectorStoreManager :=
  if exists_ vectors_file && exists_ meta_file then
    match vectors_file, meta_file with
    | Holds vectors, Holds metadatas =>
        {| _resume_lookup := _resume_lookup self;
           _vectors := vectors;
           _metadatas := metadatas;
           vectors_npz := vectors_npz self;
           meta_json := meta_json self |}
    | _, _ =>
        {| _resume_lookup := _resume_lookup self;
           _vectors := zeros_0_384;
           _metadatas := [];
           vectors_npz := vectors_npz self;
           meta_json := meta_json self |}
    end
  else self.

(** [VectorStoreManager(persist_directory)] on a directory with the
    given two files. *)
Definition VectorStoreManager_init (vectors_file : option ndarray)
  (meta_file : option (list (gmap (list N) (list N)))) : VectorStoreManager :=
  _load (on_disk vectors_file) (on_disk meta_file)
    {| _resume_lookup := ∅;
       _vectors := zeros_0_384;
       _metadatas := [];
       vectors_npz := vectors_file;
       meta_json := meta_file |}.

(** A new process on the directory the manager wrote to. *)
Definition restart (self : VectorStoreManager) : VectorStoreManager :=
  VectorStoreManager_init (vectors_npz self) (meta_json self).

(** The embedding model answers a batch of [n] texts with [n] vectors
    of one positive width. *)
Definition embeds_batch (embed_documents : list (list N) -> res ndarray)
  (texts : list (list N)) (embeddings : ndarray) : Prop :=
  embed_documents texts = Ok embeddings /\
  length (rows embeddings) = length texts /\
  0 < width embeddings.

(** Candidates in the order [evaluate] returns them: no later one has
    a higher match score. *)
Definition ranked_before (a b : CandidateScore) : Prop :=
  (match_score b <= match_score a)%Q.



(** * Properties *)

(** ** Whitespace-normal texts and [clean_text] *)

Lemma is_space_SP : is_space SP = true.
Proof. reflexivity. Qed.

Lemma tidy_weaken t : tidy true t = true -> tidy false t = true.
Proof.
  destruct t as [|c r]; simpl; [done|].
  destruct (is_space c); [|done].
  rewrite andb_false_r. discriminate.
Qed.

Lemma sub_ws_tidy t : forall b, tidy b (sub_ws b t) = true.
Proof.
  induction t as [|c r IH]; intros b; simpl; [done|].
  destruct (is_space c) eqn:Hc.
  - destruct b.
    + specialize (IH true). destruct (sub_ws true r) as [|d r'] eqn:E; [done|].
      exact IH.
    + apply IH.
  - simpl. rewrite Hc. apply IH.
Qed.

Lemma tidy_sub_ws t : forall b, tidy b t = true -> sub_ws b t = t.
Proof.
  induction t as [|c r IH]; intros b H; simpl in *; [done|].
  destruct (is_space c).
  - apply andb_prop in H as [H H2]. apply andb_prop in H as [H0 H1].
    apply N.eqb_eq in H0. destruct b; [discriminate|].
    rewrite (IH true H2). by subst.
  - by rewrite (IH false H).
Qed.

Lemma tidy_lstrip t : tidy false t = true -> tidy false (lstrip t) = true.
Proof.
  induction t as [|c r IH]; simpl; [done|].
  destruct (is_space c) eqn:Hc.
  - intros H. apply andb_prop in H as [_ H]. apply IH, tidy_weaken, H.
  - intros H. simpl. by rewrite Hc.
Qed.

Lemma tidy_rstrip t : forall b, tidy b t = true -> tidy b (rstrip t) = true.
Proof.
  induction t as [|c r IH]; intros b H; simpl in *; [done|].
  destruct (is_space c) eqn:Hc.
  - apply andb_prop in H as [H H2]. specialize (IH true H2).
    destruct (rstrip r) as [|d r']; simpl; [by rewrite ?Hc|].
    rewrite Hc, H. exact IH.
  - specialize (IH false H).
    destruct (rstrip r) as [|d r']; simpl; rewrite Hc; [done|exact IH].
Qed.

Lemma rstrip_idem t : rstrip (rstrip t) = rstrip t.
Proof.
  induction t as [|c r IH]; simpl; [done|].
  destruct (rstrip r) as [|d r'] eqn:E.
  - destruct (is_space c) eqn:Hc; simpl; [done|by rewrite Hc].
  - change (rstrip (c :: d :: r')) with
      (match rstrip (d :: r') with
       | [] => if is_space c then [] else [c]
       | x => c :: x end).
    by rewrite IH.
Qed.

Lemma lstrip_rstrip_lstrip t : lstrip (rstrip (lstrip t)) = rstrip (lstrip t).
Proof.
  induction t as [|c r IH]; simpl; [done|].
  destruct (is_space c) eqn:Hc; [exact IH|].
  simpl. rewrite Hc. destruct (rstrip r); simpl; by rewrite Hc.
Qed.

Lemma strip_idem t : strip (strip t) = strip t.
Proof. unfold strip. by rewrite lstrip_rstrip_lstrip, rstrip_idem. Qed.

Lemma clean_text_tidy t : tidy false (clean_text t) = true.
Proof. apply tidy_rstrip, tidy_lstrip, sub_ws_tidy. Qed.

(** C9. [clean_text] is idempotent: cleaning a cleaned text changes
    nothing, for every text [t]. *)
Theorem clean_text_idempotent (t : str) :
  clean_text (clean_text t) = clean_text t.
Proof.
  unfold clean_text at 1.
  rewrite (tidy_sub_ws _ _ (clean_text_tidy t)).
  unfold clean_text. apply strip_idem.
Qed.

(** ** Examples of the text utilities *)

Local Open Scope Q_scope.

Example est_5_3 :
  estimate_years_of_experience (lit "5 years, 3 yrs") = Some (8 # 2).
Proof. reflexivity. Qed.

Example est_plus :
  estimate_years_of_experience (lit "10+  Years and 100 yrs") = Some (10 # 2).
Proof. vm_compute. reflexivity. Qed.

(** Digits of other scripts are read too: a fullwidth five (U+FF15),
    and the Arabic-Indic digits one and two (U+0661, U+0662). *)
Example est_other_scripts :
  estimate_years_of_experience (65301%N :: lit " years") = Some (5 # 1) /\
  estimate_years_of_experience ([1633; 1634]%N ++ lit " yrs") = Some (12 # 1).
Proof. split; vm_compute; reflexivity. Qed.

Example split_ex :
  split_sentences (lit "Hi there.  I code! Why?  ") = [lit "Hi there."; lit "I code!"; lit "Why?"].
Proof. vm_compute. reflexivity. Qed.

Lemma truthy_usable x : truthy x = true -> usable x = Some (float_of x).
Proof.
  destruct x as [q|]; simpl; [|discriminate].
  by destruct (Qeq_bool q 0).
Qed.

Lemma falsy_usable x : truthy x = false -> usable x = None.
Proof.
  destruct x as [q|]; simpl; [|done].
  by destruct (Qeq_bool q 0).
Qed.

(** C3, as stated, fails: a resume saying "0 years" has the estimate
    0.0, present but false in a condition, and scores 0.4 where the
    stated formula gives min(0/10, 1) = 0. *)
Lemma experience_zero_years_counterexample :
  estimate_years_of_experience (lit "0 years") = Some (0 # 1) /\
  _score_experience None (lit "0 years") == 0.4 /\
  experience_as_specified None (estimate_years_of_experience (lit "0 years")) == 0 /\
  ~ _score_experience None (lit "0 years")
    == experience_as_specified None (estimate_years_of_experience (lit "0 years")).
Proof. repeat split; vm_compute; congruence. Qed.

(** C3, amended.  For every JD estimate and resume text the experience
    score is min(resume/jd, 1.2)/1.2 when both estimates are present and
    non-zero, min(resume/10, 1.0) when the resume estimate is present
    and non-zero while the JD estimate is absent or zero, and 0.4 when
    the resume estimate is absent or zero. *)
Theorem experience_score_cases (jd_experience : option Q) (resume_text : str) :
  _score_experience jd_experience resume_text =
  experience_as_specified (usable jd_experience)
    (usable (estimate_years_of_experience resume_text)).
Proof.
  unfold _score_experience.
  destruct (truthy (estimate_years_of_experience resume_text)) eqn:Hr.
  - rewrite (truthy_usable _ Hr).
    destruct (truthy jd_experience) eqn:Hj; simpl.
    + by rewrite (truthy_usable _ Hj).
    + by rewrite (falsy_usable _ Hj).
  - rewrite andb_false_r, (falsy_usable _ Hr).
    by destruct (usable jd_experience).
Qed.

Local Close Scope Q_scope.

Example splitlines_ex :
  splitlines (lit "a
b") = [lit "a"; lit "b"] /\
  splitlines [97; 13; 10; 10; 98; 10]%N = [[97]; []; [98]]%N /\
  splitlines [] = [] /\ splitlines [10]%N = [[]].
Proof. repeat split. Qed.

(** ** The generation client *)

Section ParseProps.

Variable lower : list N -> list N.


Lemma parse_line_header sections cur line :
  parse_line lower (sections, cur) line =
  match header_of lower line with
  | Some key => (<[key := strip (split_colon_last line)]> sections, Some key)
  | None =>
      match cur with
      | Some key => (alter (fun v => v ++ SP :: strip line) key sections, cur)
      | None => (sections, cur)
      end
  end.
Proof.
  unfold parse_line, header_of, mentions, start_section.
  change (keyword_of K_strengths) with (lit "strength").
  change (keyword_of K_weaknesses) with (lit "weakness").
  change (keyword_of K_reasoning) with (lit "reason").
  by repeat case_match.
Qed.

Lemma join_sp_cons h xs :
  join_sp (h :: xs) = h ++ concat (List.map (cons SP) xs).
Proof.
  revert h. induction xs as [|x xs IH]; intros h.
  - simpl. by rewrite app_nil_r.
  - change (join_sp (h :: x :: xs)) with (h ++ SP :: join_sp (x :: xs)).
    by rewrite IH.
Qed.

(** What the scan holds for [key] after reading [lines] from a given
    state. *)
Lemma scan_lookup lines : forall sections cur key,
  (foldl (parse_line lower) (sections, cur) lines).1 !! key =
  match section_text lower key lines with
  | Some t => Some t
  | None =>
      if decide (cur = Some key)
      then (fun v => v ++ appended lower lines) <$> sections !! key
      else sections !! key
  end.
Proof.
  induction lines as [|l rest IH]; intros sections cur key.
  - simpl. case_decide; [|done].
    unfold appended; simpl.
    destruct (sections !! key); simpl; [|done]. by rewrite app_nil_r.
  - cbn [foldl]. rewrite parse_line_header.
    unfold appended. simpl.
    destruct (header_of lower l) as [k|] eqn:Hl.
    + rewrite IH. destruct (section_text lower key rest); [done|].
      destruct (decide (k = key)) as [->|Hne].
      * rewrite !decide_True by done. rewrite lookup_insert_eq. simpl.
        change (match List.map strip (continuation lower rest) with
                | [] => strip (split_colon_last l)
                | _ :: _ => strip (split_colon_last l) ++
                            SP :: join_sp (List.map strip (continuation lower rest))
                end)
          with (join_sp (strip (split_colon_last l)
                           :: List.map strip (continuation lower rest))).
        by rewrite join_sp_cons.
      * rewrite !decide_False by congruence. rewrite lookup_insert_ne by done.
        simpl. case_decide; [|done].
        destruct (sections !! key); simpl; [|done]. by rewrite app_nil_r.
    + destruct (section_text lower key rest) eqn:Hs.
      * destruct cur; rewrite IH, Hs; done.
      * rewrite decide_False by done.
        destruct cur as [c|]; rewrite IH, Hs.
        -- destruct (decide (c = key)) as [->|Hne].
           ++ rewrite !decide_True by done. rewrite lookup_alter_eq.
              destruct (sections !! key); simpl; [|done].
              by rewrite <- app_assoc.
           ++ rewrite !decide_False by congruence. by rewrite lookup_alter_ne.
        -- by rewrite !decide_False by done.
Qed.

Lemma header_of_key line key :
  header_of lower line = Some key ->
  key = K_strengths \/ key = K_weaknesses \/ key = K_reasoning.
Proof. unfold header_of. repeat case_match; naive_solver. Qed.

Lemma section_text_key key lines t :
  section_text lower key lines = Some t ->
  key = K_strengths \/ key = K_weaknesses \/ key = K_reasoning.
Proof.
  induction lines as [|l rest IH]; simpl; [done|].
  destruct (section_text lower key rest); [by auto|].
  case_decide; [|done]. intros _. by eapply header_of_key.
Qed.

Lemma keys_distinct :
  K_strengths <> K_weaknesses /\ K_strengths <> K_reasoning /\
  K_weaknesses <> K_reasoning.
Proof. repeat split; intros H; vm_compute in H; discriminate H. Qed.

Lemma parse_sections content :
  _parse_llm_response lower content =
  or_not_provided <$>
    (foldl (parse_line lower) (empty_sections, None) (splitlines content)).1.
Proof. unfold _parse_llm_response. by destruct (foldl _ _ _). Qed.

(** The code and the line scan with the order of precedence agree on
    every input. *)
Lemma parse_llm_response_refines content :
  _parse_llm_response lower content = parse_by_precedence lower content.
Proof.
  destruct keys_distinct as (Hsw & Hsr & Hwr).
  apply map_eq. intros i.
  rewrite parse_sections, lookup_fmap, scan_lookup.
  rewrite decide_False by done.
  unfold parse_by_precedence, section_or_default, empty_sections.
  destruct (decide (i = K_strengths)) as [->|H1].
  { rewrite !lookup_insert_eq. by destruct (section_text _ _ _). }
  rewrite !(lookup_insert_ne _ K_strengths) by done.
  destruct (decide (i = K_weaknesses)) as [->|H2].
  { rewrite !lookup_insert_eq. by destruct (section_text _ _ _). }
  rewrite !(lookup_insert_ne _ K_weaknesses) by done.
  destruct (decide (i = K_reasoning)) as [->|H3].
  { rewrite !lookup_insert_eq. by destruct (section_text _ _ _). }
  rewrite !(lookup_insert_ne _ K_reasoning) by done.
  rewrite !lookup_empty.
  destruct (section_text lower i (splitlines content)) eqn:Hs; [|done].
  destruct (section_text_key _ _ _ Hs) as [?|[?|?]]; done.
Qed.

Lemma foldl_parse_line_ext (lower' : list N -> list N) lines : forall st,
  (forall l, In l lines -> lower l = lower' l) ->
  foldl (parse_line lower) st lines = foldl (parse_line lower') st lines.
Proof.
  induction lines as [|l rest IH]; intros st H; [done|].
  cbn [foldl]. rewrite IH by (intros; apply H; by right).
  f_equal. unfold parse_line. rewrite (H l) by (by left). done.
Qed.

Lemma parse_llm_response_ext (lower' : list N -> list N) content :
  (forall l, In l (splitlines content) -> lower l = lower' l) ->
  _parse_llm_response lower content = _parse_llm_response lower' content.
Proof.
  intros H. unfold _parse_llm_response.
  by rewrite (foldl_parse_line_ext lower' _ _ H).
Qed.

End ParseProps.



(** C7, as stated, fails.  The claim gives each section its keyword
    and no order among them.  The line "Weaknesses: no strength in SQL"
    contains "weakness", so by the claim it starts the weaknesses
    section with the text after the colon; the code finds "strength"
    first, opens the strengths section with that text and leaves the
    weaknesses "Not provided.". *)
Lemma parse_llm_response_precedence_counterexample :
  parse_as_stated lower_ascii (lit "Weaknesses: no strength in SQL") !! K_weaknesses
    = Some (lit "no strength in SQL") /\
  _parse_llm_response lower_ascii (lit "Weaknesses: no strength in SQL") !! K_weaknesses
    = Some (lit "Not provided.") /\
  _parse_llm_response lower_ascii (lit "Weaknesses: no strength in SQL") !! K_strengths
    = Some (lit "no strength in SQL") /\
  _parse_llm_response lower_ascii (lit "Weaknesses: no strength in SQL")
    <> parse_as_stated lower_ascii (lit "Weaknesses: no strength in SQL").
Proof.
  do 3 (split; [vm_compute; reflexivity|]).
  intros H. apply (f_equal (fun m => m !! K_weaknesses)) in H.
  vm_compute in H. discriminate H.
Qed.

(** C7, amended.  For every input [_parse_llm_response] returns a dict
    with exactly the keys strengths, weaknesses and reasoning, and its
    value is the one of the line scan in which the keywords take
    precedence in the order strength, weakness, reason: a line is the
    header of the first section whose keyword it contains and opens it
    with the text after the first colon, the lines up to the next
    header are joined on with spaces, a section left missing or empty
    reads "Not provided."; the three-line example yields "Good coder",
    "slow" and "solid fit". *)
Theorem parse_llm_response_line_scan (lower : list N -> list N) :
  lowers_ascii lower ->
  (forall content,
     dom (_parse_llm_response lower content)
     = ({[ K_strengths; K_weaknesses; K_reasoning ]} : gset (list N))) /\
  (forall content,
     _parse_llm_response lower content = parse_by_precedence lower content) /\
  _parse_llm_response lower example_response =
    <[K_strengths := lit "Good coder"]>
      (<[K_weaknesses := lit "slow"]> (<[K_reasoning := lit "solid fit"]> ∅)).
Proof.
  intros Hlower. split; [|split].
  - intros content. rewrite parse_llm_response_refines.
    unfold parse_by_precedence. rewrite !dom_insert_L, dom_empty_L. set_solver.
  - apply parse_llm_response_refines.
  - rewrite (parse_llm_response_ext lower (List.map ascii_lower)).
    + vm_compute. reflexivity.
    + intros l Hl. apply Hlower. vm_compute in Hl.
      destruct Hl as [<-|[<-|[<-|[]]]]; repeat constructor.
Qed.

Lemma parse_llm_response_line_scan_witness :
  lowers_ascii (List.map ascii_lower) /\
  _parse_llm_response (List.map ascii_lower) example_response =
    <[K_strengths := lit "Good coder"]>
      (<[K_weaknesses := lit "slow"]> (<[K_reasoning := lit "solid fit"]> ∅)).
Proof.
  split.
  - intros s _. reflexivity.
  - apply (parse_llm_response_line_scan (List.map ascii_lower)).
    intros s _. reflexivity.
Defined.

(** *** The heuristic fallback *)

Lemma split_sentences_nonempty text s :
  In s (split_sentences text) -> s <> [].
Proof.
  unfold split_sentences. rewrite in_map_iff.
  intros (p & <- & Hp). apply filter_In in Hp as [_ Hp].
  by destruct (strip p).
Qed.

Lemma join_sp_nonempty p rest : p <> [] -> join_sp (p :: rest) <> [].
Proof.
  intros Hp. rewrite join_sp_cons. by destruct p.
Qed.

Lemma heuristic_summary_nonempty sentences :
  (forall s, In s sentences -> s <> []) ->
  sentences <> [] -> join_sp (take 3 sentences) <> [].
Proof.
  intros Hall Hne. destruct sentences as [|s rest]; [done|].
  cbn [take]. apply join_sp_nonempty, Hall. by left.
Qed.

Section FallbackProps.

Variable lower : list N -> list N.
Variable requests_post : list N -> res response.
Variable py_str : json -> list N.




Lemma analyze_candidate_total name jd resume :
  exists r, analyze_candidate lower requests_post py_str name jd resume = Ok r.
Proof.
  unfold analyze_candidate, try_except.
  destruct (nonempty _); [|by eauto].
  destruct (ollama_analysis _ _ _ _ _ _); by eauto.
Qed.

End FallbackProps.





(** ** The vector store *)

Lemma mapM_res_Ok {A B} (f : A -> res B) (g : A -> B) l :
  (forall a, In a l -> f a = Ok (g a)) -> mapM_res f l = Ok (g <$> l).
Proof.
  induction l as [|a l IH]; intros H; [done|].
  simpl. rewrite (H a) by (by left). simpl.
  rewrite IH by (intros; apply H; by right). done.
Qed.

Lemma mapM_res_Raise {A B} (f : A -> res B) l e :
  mapM_res f l = Raise e -> exists a, In a l /\ f a = Raise e.
Proof.
  induction l as [|a l IH]; [done|].
  simpl. destruct (f a) as [b|e'] eqn:Hf; simpl.
  - destruct (mapM_res f l) as [bs|e'']; simpl; [done|].
    intros [= ->]. destruct IH as (a' & ? & ?); [done|]. exists a'. auto.
  - intros [= ->]. exists a. auto.
Qed.

Section SearchProps.

Variable cosine : list Q -> list Q -> Q.
Variable argsort : list Q -> list nat.

Lemma size_zero_iff (self : VectorStoreManager) :
  0 < width (_vectors self) ->
  nd_size (_vectors self) = 0 <-> rows (_vectors self) = [].
Proof.
  unfold nd_size. intros Hw. split.
  - intros H. apply length_zero_iff_nil. nia.
  - intros ->. done.
Qed.

Lemma search_uninitialized self q k :
  nd_size (_vectors self) = 0 ->
  similarity_search_with_scores cosine argsort self q k
  = Raise (RuntimeError NOT_INITIALIZED).
Proof. intros H. unfold similarity_search_with_scores. by rewrite decide_True. Qed.

Lemma search_initialized self q k msg :
  nd_size (_vectors self) <> 0 ->
  similarity_search_with_scores cosine argsort self q k <> Raise (RuntimeError msg).
Proof.
  intros H. unfold similarity_search_with_scores, cosine_similarity.
  rewrite decide_False by done.
  case_decide; [|done]. simpl. intros Hr.
  apply mapM_res_Raise in Hr as (idx & _ & Hr).
  unfold item in Hr.
  destruct (_metadatas self !! idx); simpl in Hr; [|done].
  by destruct ((cosine q <$> rows (_vectors self)) !! idx).
Qed.

End SearchProps.

(** C5. The search raises the "not initialized" error exactly when no
    vector is stored: it does on an empty store, and on a store that
    holds a vector it does not (vectors have the positive width of the
    embedding model). *)
Theorem search_raises_iff_empty
  (cosine : list Q -> list Q -> Q) (argsort : list Q -> list nat)
  (self : VectorStoreManager) (query_vector : list Q) (k : option Z) :
  0 < width (_vectors self) ->
  similarity_search_with_scores cosine argsort self query_vector k
    = Raise (RuntimeError NOT_INITIALIZED)
  <-> rows (_vectors self) = [].
Proof.
  intros Hw. rewrite <- (size_zero_iff self Hw). split.
  - intros H. destruct (decide (nd_size (_vectors self) = 0)); [done|].
    by apply search_initialized in H.
  - apply search_uninitialized.
Qed.

(** *** Sorting indices by insertion meets the contract of [argsort] *)

Section InsertionArgsort.

Variable before : Q -> Q -> bool.
Hypothesis before_true : forall a b, before a b = true -> (a <= b)%Q.
Hypothesis before_false : forall a b, before a b = false -> (b <= a)%Q.

Variable keys : list Q.

Lemma insert_index_perm i l : insert_index before keys i l ≡ₚ i :: l.
Proof.
  induction l as [|j l IH]; simpl; [done|].
  destruct (before _ _); [done|].
  rewrite IH. apply Permutation_swap.
Qed.

Lemma insert_index_hd i j l :
  (index_ordered keys) j i -> HdRel (index_ordered keys) j l -> HdRel (index_ordered keys) j (insert_index before keys i l).
Proof.
  intros Hji Hl. destruct l as [|k l]; simpl; [by constructor|].
  destruct (before _ _); constructor; [done|].
  by inversion Hl.
Qed.

Lemma insert_index_sorted i l :
  Sorted (index_ordered keys) l -> Sorted (index_ordered keys) (insert_index before keys i l).
Proof.
  induction 1 as [|j l Hl IH Hhd]; simpl; [by repeat constructor|].
  destruct (before _ _) eqn:Hb.
  - constructor; [by constructor|]. constructor. by apply before_true.
  - constructor; [done|]. apply insert_index_hd; [|done]. by apply before_false.
Qed.

Lemma foldr_insert_index l :
  foldr (insert_index before keys) [] l ≡ₚ l /\
  Sorted (index_ordered keys) (foldr (insert_index before keys) [] l).
Proof.
  induction l as [|i l [IHp IHs]]; simpl; [by split; constructor|].
  split; [by rewrite insert_index_perm, IHp|by apply insert_index_sorted].
Qed.

End InsertionArgsort.

Lemma argsort_by_contract before :
  (forall a b, before a b = true -> (a <= b)%Q) ->
  (forall a b, before a b = false -> (b <= a)%Q) ->
  argsort_contract (argsort_by before).
Proof. intros Ht Hf keys. by apply foldr_insert_index. Qed.

Lemma argsort_stable_contract : argsort_contract argsort_stable.
Proof.
  apply argsort_by_contract; intros a b H.
  - by apply Qle_bool_iff.
  - apply Qlt_le_weak, Qnot_le_lt. intros Hle.
    apply Qle_bool_iff in Hle. congruence.
Qed.

(** *** The search returns every stored vector, nearest first *)

#[local] Instance by_distance_trans : Transitive by_distance.
Proof. intros a b c. unfold by_distance. apply Qle_trans. Qed.

Section SearchResults.

Variable cosine : list Q -> list Q -> Q.
Variable argsort : list Q -> list nat.
Hypothesis argsort_ok : argsort_contract argsort.

Variable self : VectorStoreManager.
Variable query_vector : list Q.
Hypothesis self_wf : store_wf self.
Hypothesis self_nonempty : rows (_vectors self) <> [].
Hypothesis same_width : length query_vector = width (_vectors self).

Local Abbreviation sims := (sims_of cosine self query_vector).
Local Abbreviation order := (order_of cosine argsort self query_vector).
Local Abbreviation hit := (hit_of cosine self query_vector).

Lemma length_sims : length sims = length (rows (_vectors self)).
Proof. unfold sims_of. by rewrite length_fmap. Qed.

Lemma order_in_range idx : In idx order -> idx < length sims.
Proof.
  intros H. apply list_elem_of_In in H.
  destruct (argsort_ok (Qopp <$> sims)) as [Hp _].
  unfold order_of in H. rewrite Hp in H.
  apply elem_of_seq in H. rewrite length_fmap in H. lia.
Qed.

Lemma search_all_hits :
  similarity_search_with_scores cosine argsort self query_vector None = Ok (hit <$> order).
Proof.
  destruct self_wf as [Hlen Hw].
  unfold similarity_search_with_scores, cosine_similarity.
  rewrite decide_False by (by rewrite size_zero_iff).
  rewrite decide_True by done. simpl.
  apply mapM_res_Ok. intros idx Hidx.
  apply order_in_range in Hidx. unfold hit_of, key_at, item.
  change (cosine query_vector <$> rows (_vectors self)) with sims.
  destruct (lookup_lt_is_Some_2 sims idx Hidx) as [s ->].
  rewrite length_sims, <- Hlen in Hidx.
  by destruct (lookup_lt_is_Some_2 _ idx Hidx) as [m ->].
Qed.

Lemma hits_of_indices :
  hit <$> seq 0 (length sims) = scored cosine self query_vector.
Proof.
  destruct self_wf as [Hlen _].
  apply list_eq. intros i. unfold scored.
  rewrite list_lookup_fmap, lookup_zip_with, list_lookup_fmap.
  destruct (decide (i < length sims)) as [Hi|Hi].
  - rewrite lookup_seq_lt by done. simpl. unfold hit_of, key_at.
    rewrite length_sims in Hi.
    destruct (lookup_lt_is_Some_2 _ i Hi) as [v Hv].
    rewrite <- Hlen in Hi.
    destruct (lookup_lt_is_Some_2 _ i Hi) as [m ->]. simpl.
    unfold sims_of. by rewrite !list_lookup_fmap, Hv.
  - rewrite lookup_seq_ge by lia. simpl.
    rewrite length_sims, <- Hlen in Hi.
    by rewrite (lookup_ge_None_2 (_metadatas self) i) by lia.
Qed.

Lemma hits_permutation : hit <$> order ≡ₚ scored cosine self query_vector.
Proof.
  rewrite <- hits_of_indices.
  destruct (argsort_ok (Qopp <$> sims)) as [Hp _].
  unfold order_of. rewrite Hp. by rewrite length_fmap.
Qed.

Lemma key_at_opp idx : (key_at (Qopp <$> sims) idx == - key_at sims idx)%Q.
Proof.
  unfold key_at. rewrite list_lookup_fmap.
  by destruct (sims !! idx).
Qed.

Lemma hits_sorted : StronglySorted by_distance (hit <$> order).
Proof.
  apply Sorted_StronglySorted; [apply _|].
  destruct (argsort_ok (Qopp <$> sims)) as [_ Hs].
  eapply Sorted_fmap; [|exact Hs].
  intros i j Hij. unfold index_ordered in Hij. unfold by_distance, hit_of. cbn [snd].
  pose proof (key_at_opp i). pose proof (key_at_opp j). lra.
Qed.

End SearchResults.

Example pair_store_vectors :
  rows (_vectors pair_store) = [[4; 3]; [3; 4]]%Q /\
  rows (_vectors duplicates_store) = replicate 18 [4; 3]%Q /\
  (_metadatas duplicates_store) !! 17 ≫= (.!! K_candidate_id) = Some (lit "18").
Proof. repeat split; vm_compute; reflexivity. Qed.

(** The search without a limit succeeds with one pair per vector. *)
Lemma search_unlimited_ok
  (cosine : list Q -> list Q -> Q) (argsort : list Q -> list nat)
  (self : VectorStoreManager) (query_vector : list Q) :
  argsort_contract argsort ->
  store_wf self ->
  rows (_vectors self) <> [] ->
  length query_vector = width (_vectors self) ->
  exists results,
    similarity_search_with_scores cosine argsort self query_vector None = Ok results /\
    length results = length (rows (_vectors self)).
Proof.
  intros Hsort Hwf Hne Hw. eexists. split; [by apply search_all_hits|].
  rewrite hits_permutation by done. unfold scored.
  destruct Hwf as [Hlen _]. rewrite length_zip_with, length_fmap. lia.
Qed.

(** numpy's quicksort on small arrays: up to seventeen keys are sorted
    by insertion alone, which keeps equal keys in the order of the
    array; from eighteen keys on a partition comes first, and it moves
    equal keys past each other.  Distinct keys come out sorted. *)
Example aquicksort_small_arrays :
  aquicksort (replicate 2 (-1)%Q) = Some [0; 1] /\
  aquicksort (replicate 17 (-1)%Q) = Some (seq 0 17) /\
  aquicksort (replicate 18 (-1)%Q)
    = Some [0; 15; 14; 13; 12; 11; 10; 9; 8; 7; 6; 5; 4; 3; 2; 1; 16; 17] /\
  aquicksort ((fun i => inject_Z (Z.of_nat ((7 * i + 3) mod 20))) <$> seq 0 20)
    = Some [11; 14; 17; 0; 3; 6; 9; 12; 15; 18; 1; 4; 7; 10; 13; 16; 19; 2; 5; 8].
Proof. repeat split; vm_compute; reflexivity. Qed.

(** C1, as stated, fails on ties.  [duplicates_store] holds eighteen
    uploads of one resume, all at distance 0 from the query [[4; 3]];
    the order of insertion is that of the candidate ids 1 to 18.
    numpy's default sort partitions a range of eighteen indices once,
    which swaps the indices 1 to 7 with 15 to 9, and sorts the two
    parts by insertion, which moves no index past an equal key: the
    search returns the candidates 1, 16, 15, ..., 2, 17, 18. *)
Lemma search_ties_counterexample :
  store_wf duplicates_store /\
  length (scored cosine_of_rational_norms duplicates_store [4; 3]%Q) = 18 /\
  Forall (fun distance => (distance == 0)%Q)
    (snd <$> scored cosine_of_rational_norms duplicates_store [4; 3]%Q) /\
  (fun p => p.1 !! K_candidate_id) <$>
    stable_by_distance (scored cosine_of_rational_norms duplicates_store [4; 3]%Q)
    = Some <$> (lit <$> ["1"; "2"; "3"; "4"; "5"; "6"; "7"; "8"; "9"; "10";
                         "11"; "12"; "13"; "14"; "15"; "16"; "17"; "18"]%string) /\
  aquicksort (Qopp <$> (cosine_of_rational_norms [4; 3]%Q
                          <$> rows (_vectors duplicates_store)))
    = Some [0; 15; 14; 13; 12; 11; 10; 9; 8; 7; 6; 5; 4; 3; 2; 1; 16; 17] /\
  (similarity_search_with_scores cosine_of_rational_norms numpy_argsort
       duplicates_store [4; 3]%Q None
     ≫= fun results => Ok ((fun p => p.1 !! K_candidate_id) <$> results))
    = Ok (Some <$> (lit <$> ["1"; "16"; "15"; "14"; "13"; "12"; "11"; "10"; "9";
                             "8"; "7"; "6"; "5"; "4"; "3"; "2"; "17"; "18"]%string)) /\
  similarity_search_with_scores cosine_of_rational_norms numpy_argsort
      duplicates_store [4; 3]%Q None
    <> Ok (stable_by_distance
             (scored cosine_of_rational_norms duplicates_store [4; 3]%Q)).
Proof.
  split; [split; [reflexivity | vm_compute; lia]|].
  split; [vm_compute; reflexivity|].
  split; [vm_compute; repeat (constructor; [reflexivity|]); constructor|].
  do 3 (split; [vm_compute; reflexivity|]).
  intros H.
  apply (f_equal (fun r => match r with
                           | Ok l => (fun p => p.1 !! K_candidate_id) <$> l
                           | Raise _ => []
                           end)) in H.
  vm_compute in H. discriminate H.
Qed.

(** C1, amended.  On a store that holds a vector, and for a query of
    the store's width, the search returns one (metadata, distance) pair
    per stored vector, with distance = 1 - cosine similarity of the
    query and that vector, sorted by ascending distance; nothing is
    said of the order of pairs at the same distance.  [np.argsort] is
    taken by what numpy documents of every [kind]: it returns the
    indices of the array in an order that sorts it. *)
Theorem search_sorted_by_distance
  (cosine : list Q -> list Q -> Q) (argsort : list Q -> list nat)
  (self : VectorStoreManager) (query_vector : list Q) :
  argsort_contract argsort ->
  store_wf self ->
  rows (_vectors self) <> [] ->
  length query_vector = width (_vectors self) ->
  exists results,
    similarity_search_with_scores cosine argsort self query_vector None = Ok results /\
    results ≡ₚ scored cosine self query_vector /\
    length results = length (rows (_vectors self)) /\
    StronglySorted by_distance results.
Proof.
  intros Hsort Hwf Hne Hw. eexists. split; [by apply search_all_hits|].
  split; [by apply hits_permutation|].
  split; [|by apply hits_sorted].
  rewrite hits_permutation by done. unfold scored.
  destruct Hwf as [Hlen _]. rewrite length_zip_with, length_fmap. lia.
Qed.

Lemma search_sorted_by_distance_witness :
  exists results,
    similarity_search_with_scores cosine_of_rational_norms argsort_stable
      pair_store [3; 4]%Q None = Ok results /\
    results ≡ₚ scored cosine_of_rational_norms pair_store [3; 4]%Q /\
    length results = length (rows (_vectors pair_store)) /\
    StronglySorted by_distance results.
Proof.
  apply (search_sorted_by_distance cosine_of_rational_norms argsort_stable
           pair_store [3; 4]%Q).
  - apply argsort_stable_contract.
  - split; [reflexivity | vm_compute; lia].
  - vm_compute. discriminate.
  - reflexivity.
Defined.

Lemma search_raises_iff_empty_witness :
  similarity_search_with_scores cosine_of_rational_norms argsort_stable
    fresh_store [3; 4]%Q None = Raise (RuntimeError NOT_INITIALIZED)
  <-> rows (_vectors fresh_store) = [].
Proof.
  apply (search_raises_iff_empty cosine_of_rational_norms argsort_stable
           fresh_store [3; 4]%Q None).
  vm_compute. lia.
Defined.

Example search_on_pair_store :
  (fun p => (p.1 !! lit "candidate_name", p.2)) <$>
    default [] (match similarity_search_with_scores cosine_of_rational_norms
                        argsort_stable pair_store [3; 4]%Q None with
                | Ok l => Some l | Raise _ => None end)
  = [(Some (lit "Bob"), 0 # 25); (Some (lit "Ann"), 1 # 25)]%Q.
Proof. vm_compute. reflexivity. Qed.

(** C10. With [k = 0] the search on a store that holds a vector returns
    the whole list, one pair per stored vector, exactly as with no [k]:
    zero means "no limit". *)
Theorem search_k_zero_is_unlimited
  (cosine : list Q -> list Q -> Q) (argsort : list Q -> list nat)
  (self : VectorStoreManager) (query_vector : list Q) :
  argsort_contract argsort ->
  store_wf self ->
  rows (_vectors self) <> [] ->
  length query_vector = width (_vectors self) ->
  exists results,
    similarity_search_with_scores cosine argsort self query_vector (Some 0%Z) = Ok results /\
    similarity_search_with_scores cosine argsort self query_vector None = Ok results /\
    length results = length (rows (_vectors self)).
Proof.
  intros Hsort Hwf Hne Hw.
  destruct (search_unlimited_ok cosine argsort self query_vector)
    as (results & Hres & Hlen); try done.
  exists results. split; [exact Hres|by split].
Qed.

Lemma search_k_zero_is_unlimited_witness :
  exists results,
    similarity_search_with_scores cosine_of_rational_norms argsort_stable
      pair_store [3; 4]%Q (Some 0%Z) = Ok results /\
    similarity_search_with_scores cosine_of_rational_norms argsort_stable
      pair_store [3; 4]%Q None = Ok results /\
    length results = length (rows (_vectors pair_store)).
Proof.
  apply (search_k_zero_is_unlimited cosine_of_rational_norms argsort_stable
           pair_store [3; 4]%Q).
  - apply argsort_stable_contract.
  - split; [reflexivity | vm_compute; lia].
  - vm_compute. discriminate.
  - reflexivity.
Defined.

(** ** [build_store] *)

Lemma index_resumes_texts idx resumes :
  (index_resumes idx resumes).1.1 = text <$> resumes.
Proof.
  revert idx. induction resumes as [|r rest IH]; intros idx; [done|].
  simpl. specialize (IH (S idx)).
  destruct (index_resumes (S idx) rest) as [[texts metas] lookup].
  simpl in *. by rewrite IH.
Qed.

Lemma index_resumes_metadatas idx resumes :
  length (index_resumes idx resumes).1.2 = length resumes.
Proof.
  revert idx. induction resumes as [|r rest IH]; intros idx; [done|].
  simpl. specialize (IH (S idx)).
  destruct (index_resumes (S idx) rest) as [[texts metas] lookup].
  simpl in *. by rewrite IH.
Qed.

Section BuildStore.

Variable embed_documents : list (list N) -> res ndarray.

(** A rebuild that returns normally has replaced the three structures
    by those of the batch and written both files. *)
Lemma build_store_success self resumes r rest embeddings :
  resumes = r :: rest ->
  embed_documents (text <$> resumes) = Ok embeddings ->
  let self' := (build_store embed_documents self resumes).1 in
  (build_store embed_documents self resumes).2 = Ok tt /\
  structures self' =
    ((index_resumes 1 resumes).2, embeddings, (index_resumes 1 resumes).1.2) /\
  persisted self'.
Proof.
  intros Hr Hemb. unfold build_store.
  pose proof (index_resumes_texts 1 resumes) as Ht.
  destruct (index_resumes 1 resumes) as [[texts metas] lookup]. simpl in Ht.
  subst texts. rewrite Hr in *. cbn [fmap list_fmap] in *.
  rewrite Hemb. by cbn.
Qed.

(** A rebuild whose embedding step raises has already replaced the
    lookup; vectors, metadata and files are the old ones. *)
Lemma build_store_embedding_failure self resumes r rest e :
  resumes = r :: rest ->
  embed_documents (text <$> resumes) = Raise e ->
  let self' := (build_store embed_documents self resumes).1 in
  (build_store embed_documents self resumes).2 = Raise e /\
  _resume_lookup self' = (index_resumes 1 resumes).2 /\
  _vectors self' = _vectors self /\
  _metadatas self' = _metadatas self.
Proof.
  intros Hr Hemb. unfold build_store.
  pose proof (index_resumes_texts 1 resumes) as Ht.
  destruct (index_resumes 1 resumes) as [[texts metas] lookup]. simpl in Ht.
  subst texts. rewrite Hr in *. cbn [fmap list_fmap] in *.
  rewrite Hemb. by cbn.
Qed.

(** A rebuild from no resume empties the manager and returns before
    [_persist]: the files are untouched. *)
Lemma build_store_empty_batch self :
  let self' := (build_store embed_documents self []).1 in
  (build_store embed_documents self []).2 = Ok tt /\
  structures self' = (∅, zeros_0_384, []) /\
  vectors_npz self' = vectors_npz self /\
  meta_json self' = meta_json self.
Proof. by cbn. Qed.

End BuildStore.

Example pair_store_persisted : persisted pair_store.
Proof. split; vm_compute; reflexivity. Qed.

(** C4 (the code departs from it).  [pair_store] holds Ann and Bob; a
    rebuild from the batch [[cyd]] whose embedding step raises leaves
    the vectors and the metadata of Ann and Bob in place, but the lookup
    already is the one of the new batch: id "1" names Ann in the
    metadata and resolves to Cyd's resume. *)
Theorem build_store_failed_embedding_mixes :
  let self' := (build_store embed_nothing pair_store [cyd]).1 in
  (build_store embed_nothing pair_store [cyd]).2 = Raise ModelError /\
  _vectors self' = _vectors pair_store /\
  _metadatas self' = _metadatas pair_store /\
  _resume_lookup self' = {[ lit "1" := cyd ]} /\
  _resume_lookup pair_store = {[ lit "1" := ann; lit "2" := bob ]} /\
  structures self' <> structures pair_store /\
  (_metadatas self' !! 0%nat) ≫= (.!! lit "candidate_name") = Some (lit "Ann") /\
  get_resume_by_id self' ((_metadatas self' !! 0%nat) ≫= (.!! K_candidate_id)) = Some cyd.
Proof.
  cbv zeta.
  do 5 (split; [vm_compute; reflexivity|]).
  split.
  { intros H. apply (f_equal (fun s => s.1.1 !! lit "2")) in H.
    vm_compute in H. discriminate H. }
  split; vm_compute; reflexivity.
Qed.

(** C8, as stated, fails on the empty batch.  A rebuild of
    [pair_store] from an empty batch returns normally with an empty
    store in memory, while both files still hold the vectors and
    metadata of Ann and Bob: the branch for an empty batch returns
    before [_persist]. *)
Lemma build_store_empty_batch_keeps_files :
  let self' := (build_store embed_pythagorean pair_store []).1 in
  (build_store embed_pythagorean pair_store []).2 = Ok tt /\
  structures self' = (∅, zeros_0_384, []) /\
  vectors_npz self' = Some (_vectors pair_store) /\
  meta_json self' = Some (_metadatas pair_store) /\
  length (rows (_vectors pair_store)) = 2 /\
  ~ persisted self'.
Proof.
  cbv zeta.
  do 5 (split; [vm_compute; reflexivity|]).
  intros [H _]. vm_compute in H. discriminate H.
Qed.

(** C8, amended.  A call of [build_store] with a batch that is not
    empty, when it returns normally, has written both files, and they
    hold what the manager then holds in memory: the vectors the model
    gave for the batch and one metadata dict per resume.  A call with
    an empty batch returns normally, empties the store in memory and
    leaves both files as they were. *)
Theorem build_store_persists_nonempty_batch
  (embed_documents : list (list N) -> res ndarray)
  (self : VectorStoreManager) (resumes : list resume) :
  resumes <> [] ->
  (build_store embed_documents self resumes).2 = Ok tt ->
  (persisted (build_store embed_documents self resumes).1 /\
   embed_documents (text <$> resumes)
     = Ok (_vectors (build_store embed_documents self resumes).1) /\
   _metadatas (build_store embed_documents self resumes).1
     = (index_resumes 1 resumes).1.2 /\
   length (_metadatas (build_store embed_documents self resumes).1)
     = length resumes) /\
  ((build_store embed_documents self []).2 = Ok tt /\
   structures (build_store embed_documents self []).1 = (∅, zeros_0_384, []) /\
   vectors_npz (build_store embed_documents self []).1 = vectors_npz self /\
   meta_json (build_store embed_documents self []).1 = meta_json self).
Proof.
  intros Hne Hok. split; [|apply build_store_empty_batch].
  assert (exists r rest, resumes = r :: rest) as (r & rest & Hr).
  { destruct resumes; [done|by eauto]. }
  destruct (embed_documents (text <$> resumes)) as [embeddings|e] eqn:Hemb.
  - destruct (build_store_success embed_documents self resumes r rest embeddings
                Hr Hemb) as (_ & Hst & Hper).
    cbv zeta in Hst, Hper. unfold structures in Hst.
    injection Hst as _ Hv Hm.
    split; [exact Hper|]. rewrite Hv, Hm.
    split; [reflexivity|]. split; [reflexivity|].
    apply index_resumes_metadatas.
  - destruct (build_store_embedding_failure embed_documents self resumes r rest e
                Hr Hemb) as (Hraise & _).
    rewrite Hraise in Hok. discriminate Hok.
Qed.

Lemma build_store_persists_nonempty_batch_witness :
  [cyd] <> [] /\
  (build_store embed_pythagorean pair_store [cyd]).2 = Ok tt /\
  persisted (build_store embed_pythagorean pair_store [cyd]).1 /\
  vectors_npz (build_store embed_pythagorean pair_store [cyd]).1
    = Some {| rows := [[4; 3]]%Q; width := 2 |}.
Proof.
  split; [discriminate|]. split; [reflexivity|].
  split.
  - apply (build_store_persists_nonempty_batch embed_pythagorean pair_store [cyd]);
      [discriminate | reflexivity].
  - vm_compute. reflexivity.
Defined.

(** ** The candidate scorer *)

Local Open Scope Q_scope.

Lemma py_min_le_l a b : py_min a b <= a.
Proof. unfold py_min. destruct (Qlt_le_dec b a); lra. Qed.

Lemma py_min_le_r a b : py_min a b <= b.
Proof. unfold py_min. destruct (Qlt_le_dec b a); lra. Qed.

Lemma py_min_glb a b c : c <= a -> c <= b -> c <= py_min a b.
Proof. unfold py_min. by destruct (Qlt_le_dec b a). Qed.

Lemma Qdiv_nonneg a b : 0 <= a -> 0 <= b -> 0 <= a / b.
Proof.
  intros Ha Hb. unfold Qdiv. apply Qmult_le_0_compat; [done|].
  by apply Qinv_le_0_compat.
Qed.

Lemma normalize_similarity_range distance :
  0 <= distance ->
  0 <= _normalize_similarity distance <= 1.
Proof.
  intros Hd. unfold _normalize_similarity. split.
  - apply Qdiv_nonneg; lra.
  - apply Qle_shift_div_r; lra.
Qed.

Lemma blend_scores_range s k e :
  0 <= s <= 1 -> 0 <= k <= 1 -> 0 <= e <= 1 ->
  0 <= _blend_scores s k e <= 1.
Proof. unfold _blend_scores. lra. Qed.

Lemma round_half_even_bounds (x : Q) (a b : Z) :
  inject_Z a <= x <= inject_Z b ->
  (a <= round_half_even x <= b)%Z.
Proof.
  intros [Ha Hb]. unfold round_half_even.
  pose proof (Qfloor_le x) as Hfl.
  pose proof (Qfloor_resp_le _ _ Ha) as Hfa. rewrite Qfloor_Z in Hfa.
  pose proof (Qfloor_resp_le _ _ Hb) as Hfb. rewrite Qfloor_Z in Hfb.
  assert (x - inject_Z (Qfloor x) > 0 -> (Qfloor x + 1 <= b)%Z) as Hup.
  { intros Hpos. assert (inject_Z (Qfloor x) < inject_Z b) as Hlt by lra.
    rewrite <- Zlt_Qlt in Hlt. lia. }
  destruct (x - inject_Z (Qfloor x) ?= 1 # 2) eqn:Hc.
  - apply Qeq_alt in Hc. destruct (Z.even (Qfloor x)); [lia|].
    split; [lia|]. apply Hup. lra.
  - lia.
  - apply Qgt_alt in Hc. split; [lia|]. apply Hup. lra.
Qed.

Lemma round2_percent_range x :
  0 <= x <= 1 -> 0 <= round2 (x * 100) <= 100.
Proof.
  intros Hx. unfold round2.
  destruct (round_half_even_bounds (x * 100 * 100) 0 10000) as [Hlo Hhi].
  { change (inject_Z 0) with 0. change (inject_Z 10000) with 10000. lra. }
  rewrite Zle_Qle in Hlo, Hhi.
  change (inject_Z 0) with 0 in Hlo. change (inject_Z 10000) with 10000 in Hhi.
  split.
  - apply Qle_shift_div_l; lra.
  - apply Qle_shift_div_r; lra.
Qed.

Lemma digit_value_nonneg c v : digit_value c = Some v -> (0 <= v)%Z.
Proof.
  unfold digit_value.
  destruct (List.find _ _); [|destruct (_ && _)%N; [|done]];
    intros [= <-]; apply N2Z.is_nonneg.
Qed.

Lemma years_at_nonneg t v n : years_at t = Some (v, n) -> (0 <= v)%Z.
Proof.
  unfold years_at. destruct t as [|d1 r1]; [done|].
  destruct (digit_value d1) as [v1|] eqn:H1; [|done].
  apply digit_value_nonneg in H1.
  assert (forall o : option nat,
            (o ≫= fun n => Some (v1, S n)) = Some (v, n) -> (0 <= v)%Z) as Hone.
  { intros [m|]; simpl; [|done]. by intros [= <- _]. }
  destruct r1 as [|d2 r2]; [by apply Hone|].
  destruct (digit_value d2) as [v2|] eqn:H2; [|by apply Hone].
  apply digit_value_nonneg in H2.
  destruct (suffix_at r2); [|by apply Hone].
  intros [= <- _]. lia.
Qed.

Lemma years_matches_nonneg text : forall skip,
  Forall (fun v => (0 <= v)%Z) (years_matches skip text).
Proof.
  induction text as [|c r IH]; intros skip; [by constructor|].
  cbn [years_matches]. destruct skip; [|by apply IH].
  destruct (years_at (c :: r)) as [[v n]|] eqn:Hy; [|by apply IH].
  constructor; [by eapply years_at_nonneg|by apply IH].
Qed.

Lemma sum_Z_nonneg l : Forall (fun v => (0 <= v)%Z) l -> (0 <= sum_Z l)%Z.
Proof. induction 1; simpl; lia. Qed.

Lemma estimate_nonneg text q :
  estimate_years_of_experience text = Some q -> 0 <= q.
Proof.
  unfold estimate_years_of_experience.
  pose proof (years_matches_nonneg text 0%nat) as Hall.
  destruct (years_matches 0 text) as [|v l]; [done|].
  intros [= <-]. apply Qdiv_nonneg.
  - change 0 with (inject_Z 0). rewrite <- Zle_Qle.
    by apply (sum_Z_nonneg (v :: l)).
  - change 0 with (inject_Z 0). rewrite <- Zle_Qle. lia.
Qed.

Lemma float_of_nonneg x :
  (forall q, x = Some q -> 0 <= q) -> 0 <= float_of x.
Proof. destruct x as [q|]; simpl; [by auto|]. intros _. lra. Qed.

Lemma score_experience_range jd_experience resume_text :
  (forall q, jd_experience = Some q -> 0 <= q) ->
  0 <= _score_experience jd_experience resume_text <= 1.
Proof.
  intros Hjd. unfold _score_experience.
  pose proof (float_of_nonneg _ Hjd) as H1.
  pose proof (float_of_nonneg _ (estimate_nonneg resume_text)) as H2.
  set (re := float_of (estimate_years_of_experience resume_text)) in *.
  set (jd := float_of jd_experience) in *.
  destruct (_ && _).
  - pose proof (Qdiv_nonneg re jd H2 H1) as Hr.
    pose proof (py_min_le_r (re / jd) 1.2) as Hm.
    assert (0 <= py_min (re / jd) 1.2) as Hm' by (apply py_min_glb; lra).
    split; [apply Qdiv_nonneg; lra | apply Qle_shift_div_r; lra].
  - destruct (truthy _); [|lra].
    assert (0 <= re / 10) as Hr by (apply Qdiv_nonneg; lra).
    pose proof (py_min_le_r (re / 10) 1.0).
    split; [apply py_min_glb; lra | lra].
Qed.

Lemma score_skills_range (lower : list N -> list N) jd_skills resume_text :
  0 <= _score_skills lower jd_skills resume_text <= 1.
Proof.
  unfold _score_skills. case_decide as Hempty; [lra|].
  set (overlap := jd_skills ∩ extract_skills lower resume_text).
  assert (size overlap <= size jd_skills)%nat as Hle.
  { apply subseteq_size. unfold overlap. apply intersection_subseteq_l. }
  assert (0 < size jd_skills)%nat as Hpos.
  { destruct (decide (size jd_skills = 0%nat)) as [H0|]; [|lia].
    apply size_empty_iff in H0. by apply leibniz_equiv in H0. }
  assert (0 < inject_Z (Z.of_nat (size jd_skills))) as Hq.
  { change 0 with (inject_Z 0). rewrite <- Zlt_Qlt. lia. }
  split.
  - apply Qdiv_nonneg; [|lra].
    change 0 with (inject_Z 0). rewrite <- Zle_Qle. lia.
  - apply Qle_shift_div_r; [done|]. rewrite Qmult_1_l. rewrite <- Zle_Qle. lia.
Qed.

Lemma mapM_res_Ok_inv {A B} (f : A -> res B) l k :
  mapM_res f l = Ok k -> forall b, In b k -> exists a, In a l /\ f a = Ok b.
Proof.
  revert k. induction l as [|a l IH]; intros k; simpl.
  - intros [= <-] b [].
  - destruct (f a) as [b0|] eqn:Hf; simpl; [|done].
    destruct (mapM_res f l) as [bs|]; simpl; [|done].
    intros [= <-] b [<-|Hb].
    + exists a. auto.
    + destruct (IH bs eq_refl b Hb) as (a' & ? & ?). exists a'. auto.
Qed.

Lemma insert_desc_perm c l : insert_desc c l ≡ₚ c :: l.
Proof.
  induction l as [|d l IH]; simpl; [done|].
  destruct (Qlt_le_dec _ _); [|done].
  rewrite IH. apply Permutation_swap.
Qed.

Lemma sorted_desc_perm l : sorted_desc l ≡ₚ l.
Proof.
  induction l as [|c l IH]; simpl; [done|].
  by rewrite insert_desc_perm, IH.
Qed.

(** Every distance the search reports is one minus the cosine of the
    query and a stored vector. *)
Lemma search_distance cosine argsort self q k results m d :
  similarity_search_with_scores cosine argsort self q k = Ok results ->
  In (m, d) results ->
  exists v, In v (rows (_vectors self)) /\ d = 1 - cosine q v.
Proof.
  unfold similarity_search_with_scores, cosine_similarity.
  case_decide; [done|]. case_decide; [|done]. simpl.
  intros Hres Hin.
  destruct (mapM_res_Ok_inv _ _ _ Hres _ Hin) as (idx & _ & Hidx).
  unfold item in Hidx.
  destruct (_metadatas self !! idx); simpl in Hidx; [|done].
  rewrite list_lookup_fmap in Hidx.
  destruct (rows (_vectors self) !! idx) as [v|] eqn:Hv; simpl in Hidx; [|done].
  injection Hidx as _ <-. exists v. split; [|done].
  apply list_elem_of_In. by eapply list_elem_of_lookup_2.
Qed.

Lemma evaluate_one_scores lower requests_post py_str self jd_text jd_skills
  jd_experience m d c :
  evaluate_one lower requests_post py_str self jd_text jd_skills jd_experience (m, d)
    = Ok (Some c) ->
  exists resume_entry,
    let sim := _normalize_similarity d in
    let skill := _score_skills lower jd_skills (text resume_entry) in
    let exp := _score_experience jd_experience (text resume_entry) in
    similarity c = round2 (sim * 100) /\
    skill_alignment c = round2 (skill * 100) /\
    experience_score c = round2 (exp * 100) /\
    match_score c = round2 (_blend_scores sim skill exp * 100).
Proof.
  unfold evaluate_one.
  destruct (get_resume_by_id self (m !! K_candidate_id)) as [entry|]; [|done].
  destruct (analyze_candidate _ _ _ _ _ _) as [feedback|]; simpl; [|done].
  intros [= <-]. by exists entry.
Qed.

(** C2. Every candidate that [evaluate] reports has a match score that
    is the weighted sum 0.55 similarity + 0.25 skill alignment + 0.20
    experience of three scores in [0, 1], and the reported figure, the
    sum times 100 rounded to two decimals, lies in [0, 100]. *)
Theorem match_score_weighted_sum
  (lower : list N -> list N) (requests_post : list N -> res response)
  (py_str : json -> list N)
  (cosine : list Q -> list Q -> Q) (argsort : list Q -> list nat)
  (self : VectorStoreManager) (jd_text : list N) (jd_vector : list Q)
  (top_k : option Z) (evaluations : list CandidateScore) :
  (forall v, In v (rows (_vectors self)) -> cosine jd_vector v <= 1) ->
  evaluate lower requests_post py_str cosine argsort self jd_text jd_vector top_k
    = Ok evaluations ->
  forall c, In c evaluations ->
    exists sim skill exp,
      0 <= sim <= 1 /\ 0 <= skill <= 1 /\ 0 <= exp <= 1 /\
      similarity c = round2 (sim * 100) /\
      skill_alignment c = round2 (skill * 100) /\
      experience_score c = round2 (exp * 100) /\
      _blend_scores sim skill exp = 0.55 * sim + 0.25 * skill + 0.2 * exp /\
      0 <= _blend_scores sim skill exp <= 1 /\
      match_score c = round2 (_blend_scores sim skill exp * 100) /\
      0 <= match_score c <= 100.
Proof.
  intros Hcos Heval c Hc. unfold evaluate in Heval.
  destruct (similarity_search_with_scores _ _ _ _ _) as [results|] eqn:Hsearch;
    simpl in Heval; [|done].
  destruct (mapM_res _ results) as [evs|] eqn:Hevs; simpl in Heval; [|done].
  injection Heval as <-.
  apply list_elem_of_In in Hc. rewrite sorted_desc_perm in Hc.
  apply list_elem_of_omap in Hc as (oc & Hoc & Hid). simpl in Hid. subst oc.
  apply list_elem_of_In in Hoc.
  destruct (mapM_res_Ok_inv _ _ _ Hevs _ Hoc) as ([m d] & Hhit & Hone).
  destruct (search_distance _ _ _ _ _ _ _ _ Hsearch Hhit) as (v & Hv & ->).
  apply evaluate_one_scores in Hone as (entry & Hs & Hk & He & Hm).
  set (sim := _normalize_similarity (1 - cosine jd_vector v)) in *.
  set (skill := _score_skills lower (extract_skills lower jd_text) (text entry)) in *.
  set (exp := _score_experience (estimate_years_of_experience jd_text) (text entry)) in *.
  assert (0 <= sim <= 1) as Hsim.
  { apply normalize_similarity_range. specialize (Hcos v Hv). lra. }
  assert (0 <= skill <= 1) as Hskill by apply score_skills_range.
  assert (0 <= exp <= 1) as Hexp.
  { apply score_experience_range. apply estimate_nonneg. }
  pose proof (blend_scores_range _ _ _ Hsim Hskill Hexp) as Hblend.
  exists sim, skill, exp.
  split; [exact Hsim|]. split; [exact Hskill|]. split; [exact Hexp|].
  split; [exact Hs|]. split; [exact Hk|]. split; [exact He|].
  split; [reflexivity|]. split; [exact Hblend|]. split; [exact Hm|].
  rewrite Hm. by apply round2_percent_range.
Qed.

Lemma match_score_weighted_sum_witness :
  exists evaluations,
    evaluate lower_ascii unreachable no_repr cosine_of_rational_norms argsort_stable
      pair_store python_jd [3; 4] None = Ok evaluations /\
    length evaluations = 2%nat /\
    forall c, In c evaluations ->
      exists sim skill exp,
        0 <= sim <= 1 /\ 0 <= skill <= 1 /\ 0 <= exp <= 1 /\
        similarity c = round2 (sim * 100) /\
        skill_alignment c = round2 (skill * 100) /\
        experience_score c = round2 (exp * 100) /\
        _blend_scores sim skill exp = 0.55 * sim + 0.25 * skill + 0.2 * exp /\
        0 <= _blend_scores sim skill exp <= 1 /\
        match_score c = round2 (_blend_scores sim skill exp * 100) /\
        0 <= match_score c <= 100.
Proof.
  eexists. split; [vm_compute; reflexivity|]. split; [reflexivity|].
  apply (match_score_weighted_sum lower_ascii unreachable no_repr
           cosine_of_rational_norms argsort_stable pair_store python_jd [3; 4] None).
  - intros v Hv. vm_compute in Hv.
    destruct Hv as [<-|[<-|[]]]; vm_compute; discriminate.
  - vm_compute. reflexivity.
Defined.

(** * Further properties of the code *)

Local Close Scope Q_scope.

(** ** The text normaliser *)

Lemma tidy_spaces t : forall b c,
  tidy b t = true -> In c t -> is_space c = true -> c = SP.
Proof.
  induction t as [|d r IH]; intros b c Ht Hin Hc; [done|].
  simpl in Ht. destruct (is_space d) eqn:Hd.
  - apply andb_prop in Ht as [Ht Hr]. apply andb_prop in Ht as [Heq _].
    apply N.eqb_eq in Heq. destruct Hin as [<-|Hin]; [done|]. by eapply IH.
  - destruct Hin as [<-|Hin]; [congruence|]. by eapply IH.
Qed.

Lemma tidy_no_double_space t : forall b pre post,
  tidy b t = true -> t <> pre ++ SP :: SP :: post.
Proof.
  induction t as [|d r IH]; intros b pre post Ht Heq.
  - by destruct pre.
  - simpl in Ht. destruct pre as [|p pre]; simpl in Heq.
    + injection Heq as -> ->. by rewrite andb_false_r in Ht.
    + injection Heq as -> Hr. destruct (is_space p).
      * apply andb_prop in Ht as [_ Ht]. by eapply IH.
      * by eapply IH.
Qed.

(** X1. [clean_text] returns a whitespace-normal text: it has no leading
    or trailing whitespace (stripping it again changes nothing), its
    only whitespace character is the space U+0020, and it never holds
    two spaces in a row. *)
Theorem clean_text_normal_form (t : list N) :
  strip (clean_text t) = clean_text t /\
  (forall c, In c (clean_text t) -> is_space c = true -> c = SP) /\
  (forall pre post, clean_text t <> pre ++ SP :: SP :: post).
Proof.
  split; [apply strip_idem|]. split.
  - intros c. apply (tidy_spaces _ false), clean_text_tidy.
  - intros pre post. apply (tidy_no_double_space _ false), clean_text_tidy.
Qed.

Lemma rstrip_nil t : rstrip t = [] <-> forallb is_space t = true.
Proof.
  induction t as [|c r IH]; simpl; [done|].
  destruct (rstrip r) as [|d r'] eqn:Hr.
  - destruct (is_space c); simpl; [|by split].
    split; intros _; [by apply IH|done].
  - split; [done|]. intros H. apply andb_prop in H as [_ H].
    apply IH in H. done.
Qed.

Lemma forallb_lstrip t : forallb is_space (lstrip t) = forallb is_space t.
Proof.
  induction t as [|c r IH]; simpl; [done|].
  destruct (is_space c) eqn:Hc; simpl; [done|]. by rewrite Hc.
Qed.

Lemma forallb_sub_ws t : forall b,
  forallb is_space (sub_ws b t) = forallb is_space t.
Proof.
  induction t as [|c r IH]; intros b; simpl; [done|].
  destruct (is_space c) eqn:Hc; simpl.
  - destruct b; simpl; rewrite ?is_space_SP; apply IH.
  - rewrite Hc. done.
Qed.

(** X2. [clean_text] returns the empty string exactly for texts made
    of whitespace only (the empty text included): this is when the
    caller's "empty after cleaning" checks fire. *)
Theorem clean_text_empty_iff (t : list N) :
  clean_text t = [] <-> forallb is_space t = true.
Proof.
  unfold clean_text, strip.
  by rewrite rstrip_nil, forallb_lstrip, forallb_sub_ws.
Qed.

(** *** [" ".join(s.split())] is [clean_text] *)

Lemma sub_ws_true_head t :
  lstrip (sub_ws true t) = sub_ws true t.
Proof.
  induction t as [|c r IH]; simpl; [done|].
  destruct (is_space c) eqn:Hc; [done|]. simpl. by rewrite Hc.
Qed.

Lemma lstrip_sub_ws t : lstrip (sub_ws false t) = sub_ws true t.
Proof.
  destruct t as [|c r]; simpl; [done|].
  destruct (is_space c) eqn:Hc; simpl.
  - rewrite ?is_space_SP. apply sub_ws_true_head.
  - by rewrite Hc.
Qed.

Lemma clean_text_alt t : clean_text t = rstrip (sub_ws true t).
Proof. unfold clean_text, strip. by rewrite lstrip_sub_ws. Qed.

Lemma rstrip_cons_nonspace c t :
  is_space c = false -> rstrip (c :: t) = c :: rstrip t.
Proof. intros Hc. simpl. rewrite Hc. by destruct (rstrip t). Qed.

Lemma rstrip_cons_space c t :
  is_space c = true ->
  rstrip (c :: t) = match rstrip t with [] => [] | r => c :: r end.
Proof. intros Hc. simpl. by rewrite Hc. Qed.

Lemma split_ws_from_words t : forall word w,
  In w (split_ws_from word t) -> w <> [].
Proof.
  induction t as [|c r IH]; intros word w; simpl.
  - destruct word; simpl; [done|]. by intros [<-|[]].
  - destruct (is_space c).
    + destruct word as [|a word]; simpl; [by apply IH|].
      intros [<-|H]; [done|]. by eapply IH.
    + apply IH.
Qed.

Lemma join_sp_nil_iff ws :
  (forall w, In w ws -> w <> []) -> join_sp ws = [] -> ws = [].
Proof.
  destruct ws as [|w ws]; [done|]. intros Hall H.
  rewrite join_sp_cons in H. apply app_eq_nil in H as [H _].
  exfalso. apply (Hall w); [by left|done].
Qed.

Lemma join_split_ws_from t : forall word,
  join_sp (split_ws_from word t) =
  if nonempty word then word ++ rstrip (sub_ws false t)
  else rstrip (sub_ws true t).
Proof.
  induction t as [|c r IH]; intros word.
  - simpl. destruct word; simpl; [done|]. by rewrite app_nil_r.
  - cbn [split_ws_from sub_ws]. destruct (is_space c) eqn:Hc.
    + destruct (nonempty word) eqn:Hw; [|apply IH].
      rewrite rstrip_cons_space by apply is_space_SP.
      specialize (IH []). simpl in IH. rewrite <- IH.
      pose proof (split_ws_from_words r []) as Hwords.
      destruct (split_ws_from [] r) as [|w ws] eqn:Hs.
      * simpl. by rewrite app_nil_r.
      * rewrite (join_sp_cons word).
        destruct (join_sp (w :: ws)) eqn:Hj.
        { apply join_sp_nil_iff in Hj; [done|]. exact Hwords. }
        rewrite <- Hj, (join_sp_cons w). reflexivity.
    + specialize (IH (word ++ [c])).
      assert (nonempty (word ++ [c]) = true) as Hne by (by destruct word).
      rewrite Hne in IH. rewrite IH, <- app_assoc.
      rewrite !rstrip_cons_nonspace by done.
      by destruct word.
Qed.

Lemma join_split_ws t : join_sp (split_ws t) = clean_text t.
Proof.
  unfold split_ws. rewrite join_split_ws_from. simpl.
  by rewrite clean_text_alt.
Qed.

(** X3. The two whitespace normalisers of the code agree:
    [" ".join(s.split())] equals [clean_text(s)] for every [s]; hence
    [clean_llm_text] is [clean_text] applied to the text without its
    bold markers. *)
Theorem join_split_is_clean_text (t : list N) :
  join_sp (split_ws t) = clean_text t /\
  clean_llm_text t = clean_text (remove_double_star (remove_triple_star t)).
Proof.
  split; [apply join_split_ws|].
  unfold clean_llm_text. destruct t as [|c r]; [done|].
  cbn [nonempty]. apply join_split_ws.
Qed.

(** *** [clean_llm_text] *)

Lemma no_bold_marker_weaken t :
  no_bold_marker true t = true -> no_bold_marker false t = true.
Proof.
  destruct t as [|c r]; simpl; [done|].
  by destruct (c =? STAR)%N.
Qed.

Lemma no_bold_marker_tail p c r :
  no_bold_marker p (c :: r) = true -> no_bold_marker false r = true.
Proof.
  simpl. destruct (c =? STAR)%N; [|done].
  intros H. apply andb_prop in H as [_ H]. by apply no_bold_marker_weaken.
Qed.

Lemma remove_double_star_other c tl :
  (c =? STAR)%N = false ->
  remove_double_star (c :: tl) = c :: remove_double_star tl.
Proof. intros Hc. destruct tl; simpl; by rewrite ?Hc. Qed.

Lemma remove_double_star_clean t :
  no_bold_marker false (remove_double_star t) = true /\
  forall c, no_bold_marker false (remove_double_star (c :: t)) = true.
Proof.
  induction t as [|d r [IH1 IH2]]; [split; [done|]|split; [apply IH2|]].
  - intros c. simpl. by destruct (c =? STAR)%N.
  - intros c.
    change (remove_double_star (c :: d :: r)) with
      (if (c =? STAR)%N && (d =? STAR)%N then remove_double_star r
       else c :: remove_double_star (d :: r)).
    destruct (c =? STAR)%N eqn:Hc; destruct (d =? STAR)%N eqn:Hd;
      cbn [andb]; try done.
    + rewrite (remove_double_star_other d r Hd).
      cbn [no_bold_marker]. by rewrite Hc, Hd.
    + cbn [no_bold_marker]. rewrite Hc. apply IH2.
    + cbn [no_bold_marker]. rewrite Hc. apply IH2.
Qed.

Lemma remove_double_star_id t : forall p,
  no_bold_marker p t = true -> remove_double_star t = t.
Proof.
  induction t as [|c tl IH]; intros p H; [done|].
  destruct tl as [|d rest]; [done|].
  change (remove_double_star (c :: d :: rest)) with
    (if (c =? STAR)%N && (d =? STAR)%N then remove_double_star rest
     else c :: remove_double_star (d :: rest)).
  destruct ((c =? STAR)%N && (d =? STAR)%N) eqn:Hcd.
  - apply andb_prop in Hcd as [Hc Hd]. simpl in H. rewrite Hc, Hd in H.
    simpl in H. by rewrite andb_false_r in H.
  - f_equal. simpl in H. destruct (c =? STAR)%N.
    + apply andb_prop in H as [_ H]. by apply (IH true).
    + by apply (IH false).
Qed.

Lemma remove_triple_star_id t : forall p,
  no_bold_marker p t = true -> remove_triple_star t = t.
Proof.
  induction t as [|c tl IH]; intros p H; [done|].
  assert (remove_triple_star tl = tl) as Htl.
  { simpl in H. destruct (c =? STAR)%N.
    - apply andb_prop in H as [_ H]. by apply (IH true).
    - by apply (IH false). }
  destruct tl as [|d [|e rest]]; [done| |].
  { change (remove_triple_star [c; d]) with (c :: remove_triple_star [d]).
    by rewrite Htl. }
  change (remove_triple_star (c :: d :: e :: rest)) with
    (if (c =? STAR)%N && (d =? STAR)%N && (e =? STAR)%N
     then remove_triple_star rest
     else c :: remove_triple_star (d :: e :: rest)).
  destruct ((c =? STAR)%N && (d =? STAR)%N && (e =? STAR)%N) eqn:Hcde.
  - apply andb_prop in Hcde as [Hcd _]. apply andb_prop in Hcd as [Hc Hd].
    simpl in H. rewrite Hc, Hd in H. simpl in H. by rewrite andb_false_r in H.
  - by rewrite Htl.
Qed.

Lemma is_space_STAR : is_space STAR = false.
Proof. reflexivity. Qed.

Lemma space_not_star c : is_space c = true -> (c =? STAR)%N = false.
Proof.
  intros Hc. apply N.eqb_neq. intros ->. by rewrite is_space_STAR in Hc.
Qed.

Lemma no_bold_marker_sub_ws t : forall b p,
  no_bold_marker p t = true -> (b = true -> p = false) ->
  no_bold_marker p (sub_ws b t) = true.
Proof.
  induction t as [|c r IH]; intros b p H Hb; [done|].
  cbn [sub_ws]. destruct (is_space c) eqn:Hc.
  - simpl in H. rewrite (space_not_star c Hc) in H.
    destruct b.
    + rewrite (Hb eq_refl). by apply IH.
    + simpl. by apply IH.
  - simpl in *. destruct (c =? STAR)%N.
    + apply andb_prop in H as [Hp H]. rewrite Hp. by apply IH.
    + by apply IH.
Qed.

Lemma no_bold_marker_lstrip t p :
  no_bold_marker p t = true -> no_bold_marker false (lstrip t) = true.
Proof.
  revert p. induction t as [|c r IH]; intros p H; [done|].
  simpl. destruct (is_space c) eqn:Hc.
  - simpl in H. rewrite (space_not_star c Hc) in H. by apply (IH false).
  - simpl in *. destruct (c =? STAR)%N; [|done].
    by apply andb_prop in H as [_ ->].
Qed.

Lemma no_bold_marker_rstrip t : forall p,
  no_bold_marker p t = true -> no_bold_marker p (rstrip t) = true.
Proof.
  induction t as [|c r IH]; intros p H; [done|].
  simpl in *. destruct (c =? STAR)%N eqn:Hs.
  - apply andb_prop in H as [Hp H]. specialize (IH true H).
    destruct (rstrip r); simpl; rewrite ?Hs, ?Hp; [|done].
    destruct (is_space c); simpl; by rewrite ?Hs, ?Hp.
  - specialize (IH false H).
    destruct (rstrip r); simpl; rewrite ?Hs; [|done].
    destruct (is_space c); simpl; by rewrite ?Hs.
Qed.

Lemma no_bold_marker_clean_text t :
  no_bold_marker false t = true -> no_bold_marker false (clean_text t) = true.
Proof.
  intros H. unfold clean_text, strip.
  apply no_bold_marker_rstrip. eapply no_bold_marker_lstrip.
  by apply no_bold_marker_sub_ws.
Qed.

Lemma no_bold_marker_sound t : forall p pre post,
  no_bold_marker p t = true -> t <> pre ++ STAR :: STAR :: post.
Proof.
  induction t as [|c r IH]; intros p pre post H Heq.
  - by destruct pre.
  - destruct pre as [|a pre]; simpl in Heq.
    + injection Heq as -> ->. simpl in H. by rewrite andb_false_r in H.
    + injection Heq as -> Hr. apply no_bold_marker_tail in H. by eapply IH.
Qed.

Lemma clean_llm_text_alt t :
  clean_llm_text t = clean_text (remove_double_star (remove_triple_star t)).
Proof.
  unfold clean_llm_text. destruct t as [|c r]; [done|].
  cbn [nonempty]. apply join_split_ws.
Qed.

Lemma clean_text_fixed t :
  tidy false t = true -> strip t = t -> clean_text t = t.
Proof. intros Ht Hs. unfold clean_text. by rewrite (tidy_sub_ws _ _ Ht). Qed.

(** X4. The result of [clean_llm_text] never contains two asterisks in
    a row, and [clean_llm_text] is idempotent. *)
Theorem clean_llm_text_idempotent (t : list N) :
  (forall pre post, clean_llm_text t <> pre ++ STAR :: STAR :: post) /\
  clean_llm_text (clean_llm_text t) = clean_llm_text t.
Proof.
  assert (no_bold_marker false (clean_llm_text t) = true) as Hclean.
  { rewrite clean_llm_text_alt. apply no_bold_marker_clean_text.
    apply remove_double_star_clean. }
  split; [intros pre post; by apply (no_bold_marker_sound _ false)|].
  rewrite (clean_llm_text_alt (clean_llm_text t)).
  rewrite (remove_triple_star_id _ _ Hclean), (remove_double_star_id _ _ Hclean).
  rewrite clean_llm_text_alt. apply clean_text_fixed.
  - apply clean_text_tidy.
  - apply strip_idem.
Qed.

(** *** [estimate_years_of_experience] and [split_sentences] *)

Lemma digit_value_range c v : digit_value c = Some v -> (0 <= v <= 9)%Z.
Proof.
  unfold digit_value. destruct (List.find _ _) as [first|] eqn:Hf.
  - apply find_some in Hf as [_ Hin]. unfold in_run in Hin.
    apply andb_prop in Hin as [Hlo Hhi].
    apply N.leb_le in Hlo. apply N.ltb_lt in Hhi. intros [= <-]. lia.
  - destruct (_ && _)%N; [|done]. intros [= <-].
    assert ((c - MATH_DIGITS_FIRST) mod 10 < 10)%N
      by (by apply N.mod_upper_bound).
    revert H. generalize ((c - MATH_DIGITS_FIRST) mod 10)%N. lia.
Qed.

(** The ASCII digits read as themselves, and so do the digits of other
    scripts: fullwidth five (U+FF15), Arabic-Indic seven (U+0667) and
    the bold mathematical digits (U+1D7CE is zero, U+1D7D9 is one of the
    next run). *)
Lemma digit_value_scripts :
  digit_value 48 = Some 0%Z /\ digit_value 57 = Some 9%Z /\
  digit_value 65301 = Some 5%Z /\ digit_value 1639 = Some 7%Z /\
  digit_value 120782 = Some 0%Z /\ digit_value 120793 = Some 1%Z /\
  digit_value 47 = None /\ digit_value 58 = None /\ digit_value 178 = None.
Proof. repeat split; vm_compute; reflexivity. Qed.

Lemma years_at_range t v n : years_at t = Some (v, n) -> (0 <= v <= 99)%Z.
Proof.
  unfold years_at. destruct t as [|d1 r1]; [done|].
  destruct (digit_value d1) as [v1|] eqn:H1; [|done].
  apply digit_value_range in H1.
  assert (forall o : option nat,
            (o ≫= fun n => Some (v1, S n)) = Some (v, n) -> (0 <= v <= 99)%Z) as Hone.
  { intros [m|]; simpl; [|done]. intros [= <- _]. lia. }
  destruct r1 as [|d2 r2]; [by apply Hone|].
  destruct (digit_value d2) as [v2|] eqn:H2; [|by apply Hone].
  apply digit_value_range in H2.
  destruct (suffix_at r2); [|by apply Hone].
  intros [= <- _]. lia.
Qed.

Lemma years_matches_range text : forall skip,
  Forall (fun v => (0 <= v <= 99)%Z) (years_matches skip text).
Proof.
  induction text as [|c r IH]; intros skip; [by constructor|].
  cbn [years_matches]. destruct skip; [|by apply IH].
  destruct (years_at (c :: r)) as [[v n]|] eqn:Hy; [|by apply IH].
  constructor; [by eapply years_at_range|by apply IH].
Qed.

Lemma sum_Z_range l :
  Forall (fun v => (0 <= v <= 99)%Z) l ->
  (0 <= sum_Z l <= 99 * Z.of_nat (length l))%Z.
Proof. induction 1; simpl length; simpl sum_Z; lia. Qed.

(** X5. An estimate of [estimate_years_of_experience], when there is
    one, lies between 0 and 99: it is the mean of numbers of one or two
    digits. *)
Theorem estimate_years_bounds (text : list N) (years : Q) :
  estimate_years_of_experience text = Some years ->
  (0 <= years <= 99)%Q.
Proof.
  unfold estimate_years_of_experience.
  pose proof (years_matches_range text 0%nat) as Hall.
  destruct (years_matches 0 text) as [|v l] eqn:Hm; [done|].
  apply sum_Z_range in Hall.
  set (s := sum_Z (v :: l)) in *. set (n := Z.of_nat (length (v :: l))) in *.
  intros Heq. injection Heq as <-.
  assert (0 < n)%Z as Hn by (unfold n; simpl; lia).
  assert (0 < inject_Z n)%Q as Hq.
  { change 0%Q with (inject_Z 0). by rewrite <- Zlt_Qlt. }
  split.
  - apply Qle_shift_div_l; [done|]. rewrite Qmult_0_l.
    change 0%Q with (inject_Z 0). rewrite <- Zle_Qle. lia.
  - apply Qle_shift_div_r; [done|].
    change 99%Q with (inject_Z 99). rewrite <- inject_Z_mult, <- Zle_Qle. lia.
Qed.

Lemma estimate_years_bounds_witness :
  (0 <= 8 # 2 <= 99)%Q.
Proof.
  apply (estimate_years_bounds (lit "5 years, 3 yrs") (8 # 2)%Q). reflexivity.
Defined.

(** X6. No sentence returned by [split_sentences] is empty, and none
    has leading or trailing whitespace. *)
Theorem split_sentences_fragments (text s : list N) :
  In s (split_sentences text) -> s <> [] /\ strip s = s.
Proof.
  intros H. split; [by eapply split_sentences_nonempty|].
  unfold split_sentences in H. apply in_map_iff in H as (p & <- & _).
  apply strip_idem.
Qed.

Lemma split_sentences_fragments_witness :
  lit "I code!" <> [] /\ strip (lit "I code!") = lit "I code!".
Proof.
  apply (split_sentences_fragments (lit "Hi there.  I code! Why?  ")).
  vm_compute. right. left. reflexivity.
Defined.

(** *** Substrings and [extract_skills] *)

Lemma starts_with_spec p t :
  starts_with p t = true <-> exists post, t = p ++ post.
Proof.
  revert t. induction p as [|a p IH]; intros t; simpl.
  - split; [by exists t|done].
  - destruct t as [|b t]; [split; [done|by intros [? ?]]|].
    rewrite andb_true_iff, N.eqb_eq, IH. split.
    + intros [-> [post ->]]. by exists post.
    + intros [post [= -> ->]]. split; [done|by exists post].
Qed.

Lemma contains_spec needle hay :
  contains needle hay = true <-> exists pre post, hay = pre ++ needle ++ post.
Proof.
  induction hay as [|c hay IH].
  - simpl. rewrite orb_false_r, starts_with_spec. split.
    + intros [post ->]. by exists [], post.
    + intros (pre & post & H). symmetry in H.
      apply app_eq_nil in H as [-> H]. by exists post.
  - cbn [contains]. rewrite orb_true_iff, starts_with_spec, IH. split.
    + intros [[post ->]|(pre & post & ->)].
      * by exists [], post.
      * by exists (c :: pre), post.
    + intros ([|a pre] & post & H).
      * left. by exists post.
      * injection H as -> ->. right. by exists pre, post.
Qed.

Lemma contains_trans a b hay :
  contains a b = true -> contains b hay = true -> contains a hay = true.
Proof.
  rewrite !contains_spec. intros (p1 & q1 & ->) (p2 & q2 & ->).
  exists (p2 ++ p1), (q1 ++ q2). by rewrite <- !app_assoc.
Qed.

(** X7. Skills are matched as substrings, without word boundaries: when
    a vocabulary term is found in a text, every vocabulary term that is
    a substring of it is found too (a text with "javascript" always
    yields "java" as well). *)
Theorem extract_skills_substring_closed
  (lower : list N -> list N) (text a b : list N) :
  a ∈ COMMON_SKILLS ->
  contains a b = true ->
  b ∈ extract_skills lower text ->
  a ∈ extract_skills lower text.
Proof.
  unfold extract_skills. rewrite !elem_of_filter.
  intros Ha Hab [Hb _]. split; [|done]. by eapply contains_trans.
Qed.

Lemma extract_skills_substring_closed_witness :
  lit "java" ∈ extract_skills lower_ascii (lit "Senior JavaScript engineer").
Proof.
  apply (extract_skills_substring_closed lower_ascii
           (lit "Senior JavaScript engineer") (lit "java") (lit "javascript")).
  - apply (bool_decide_unpack _). vm_compute. exact I.
  - reflexivity.
  - apply (bool_decide_unpack _). vm_compute. exact I.
Defined.

(** ** The generation client, continued *)

Lemma or_not_provided_nonempty v :
  or_not_provided v <> [] /\ strip (or_not_provided v) = or_not_provided v.
Proof.
  unfold or_not_provided. destruct (nonempty (strip v)) eqn:Hv.
  - split; [by destruct (strip v)|apply strip_idem].
  - split; [intros H; vm_compute in H; discriminate H|reflexivity].
Qed.

Lemma parse_values_nonempty lower content key v :
  _parse_llm_response lower content !! key = Some v ->
  v <> [] /\ strip v = v.
Proof.
  rewrite parse_sections, lookup_fmap.
  destruct (_ !! key) as [x|]; simpl; [|done].
  intros [= <-]. apply or_not_provided_nonempty.
Qed.

(** X8. Every value of the dict returned by [_parse_llm_response] is a
    non-empty string without leading or trailing whitespace. *)
Theorem parse_llm_response_values (lower : list N -> list N)
  (content key v : list N) :
  _parse_llm_response lower content !! key = Some v ->
  v <> [] /\ strip v = v.
Proof. apply parse_values_nonempty. Qed.

Lemma parse_llm_response_values_witness :
  lit "slow" <> [] /\ strip (lit "slow") = lit "slow".
Proof.
  apply (parse_llm_response_values lower_ascii example_response K_weaknesses).
  vm_compute. reflexivity.
Defined.

Lemma three_keys_dom (a b c : list N) :
  dom (<[K_strengths := a]> (<[K_weaknesses := b]> (<[K_reasoning := c]> ∅))
         : gmap (list N) (list N))
  = ({[ K_strengths; K_weaknesses; K_reasoning ]} : gset (list N)).
Proof. rewrite !dom_insert_L, dom_empty_L. set_solver. Qed.

Lemma three_keys_lookup (a b c : list N) key v :
  (<[K_strengths := a]> (<[K_weaknesses := b]> (<[K_reasoning := c]> ∅))
     : gmap (list N) (list N)) !! key = Some v ->
  v = a \/ v = b \/ v = c.
Proof.
  rewrite !lookup_insert. repeat case_decide; try rewrite lookup_empty;
    intros [= <-]; auto.
Qed.

Lemma heuristic_feedback_wf resume :
  dom (heuristic_feedback resume)
    = ({[ K_strengths; K_weaknesses; K_reasoning ]} : gset (list N)) /\
  forall key v, heuristic_feedback resume !! key = Some v -> v <> [].
Proof.
  unfold heuristic_feedback. split; [apply three_keys_dom|].
  intros key v Hv. apply three_keys_lookup in Hv.
  destruct Hv as [Hv|[Hv|Hv]]; subst v.
  - intros H; vm_compute in H; discriminate H.
  - intros H; vm_compute in H; discriminate H.
  - case_decide as Hs.
    + intros H; vm_compute in H; discriminate H.
    + apply heuristic_summary_nonempty; [|done].
      intros s. apply split_sentences_nonempty.
Qed.

Lemma parse_llm_response_wf lower content :
  dom (_parse_llm_response lower content)
    = ({[ K_strengths; K_weaknesses; K_reasoning ]} : gset (list N)) /\
  forall key v, _parse_llm_response lower content !! key = Some v -> v <> [].
Proof.
  split.
  - rewrite parse_llm_response_refines. apply three_keys_dom.
  - intros key v Hv. by apply parse_values_nonempty in Hv as [? _].
Qed.

(** X9. Whatever the service does, [analyze_candidate] returns a dict
    with exactly the keys strengths, weaknesses and reasoning, each with
    a non-empty value; it never raises. *)
Theorem analyze_candidate_always_complete
  (lower : list N -> list N) (requests_post : list N -> res response)
  (py_str : json -> list N) (name jd resume : list N) :
  exists feedback,
    analyze_candidate lower requests_post py_str name jd resume = Ok feedback /\
    dom feedback = ({[ K_strengths; K_weaknesses; K_reasoning ]} : gset (list N)) /\
    forall key v, feedback !! key = Some v -> v <> [].
Proof.
  unfold analyze_candidate, try_except.
  destruct (nonempty CANDIDATE_FEEDBACK_PROMPT).
  - destruct (ollama_analysis _ _ _ _ _ _) as [r|e] eqn:Hr.
    + exists r. split; [done|].
      unfold ollama_analysis in Hr.
      destruct (_call_ollama _ _ _) as [[| | |s| |]|]; simpl in Hr; try done.
      injection Hr as <-. apply parse_llm_response_wf.
    + eexists. split; [done|]. apply heuristic_feedback_wf.
  - eexists. split; [done|]. apply heuristic_feedback_wf.
Qed.

Lemma call_ollama_response requests_post py_str prompt resp fields content :
  requests_post prompt = Ok resp ->
  ((400 <=? status_code resp) && (status_code resp <? 600))%Z = false ->
  json_body resp = Ok (JObj fields) ->
  fields_find (lit "response") fields = Some (JStr content) ->
  content <> [] ->
  _call_ollama requests_post py_str prompt = Ok (JStr content).
Proof.
  intros Hpost Hstatus Hbody Hfield Hne.
  unfold _call_ollama, raise_for_status. rewrite Hpost. simpl.
  rewrite Hstatus. simpl. rewrite Hbody. simpl.
  rewrite Hfield. simpl. unfold py_or. simpl.
  by destruct content.
Qed.

(** X10. When the service answers with a status outside 400..599 and a
    JSON object whose "response" field is a non-empty string,
    [analyze_candidate] returns that string parsed by
    [_parse_llm_response]. *)
Theorem analyze_candidate_parses_answer
  (lower : list N -> list N) (requests_post : list N -> res response)
  (py_str : json -> list N) (name jd resume : list N)
  (resp : response) (fields : list (list N * json)) (content : list N) :
  requests_post (format_prompt name jd resume) = Ok resp ->
  ~ (400 <= status_code resp < 600)%Z ->
  json_body resp = Ok (JObj fields) ->
  fields_find (lit "response") fields = Some (JStr content) ->
  content <> [] ->
  analyze_candidate lower requests_post py_str name jd resume
  = Ok (_parse_llm_response lower content).
Proof.
  intros Hpost Hstatus Hbody Hfield Hne.
  assert (((400 <=? status_code resp) && (status_code resp <? 600))%Z = false) as Hs.
  { apply andb_false_iff. destruct (Z.leb_spec 400 (status_code resp)); [|by left].
    right. apply Z.ltb_ge. lia. }
  unfold analyze_candidate, ollama_analysis.
  rewrite (call_ollama_response _ _ _ _ _ _ Hpost Hs Hbody Hfield Hne).
  reflexivity.
Qed.

Lemma analyze_candidate_parses_answer_witness :
  analyze_candidate lower_ascii (answering example_response) no_repr
    (lit "Ann") python_jd (text ann)
  = Ok (_parse_llm_response lower_ascii example_response).
Proof.
  apply (analyze_candidate_parses_answer lower_ascii (answering example_response)
           no_repr (lit "Ann") python_jd (text ann)
           {| status_code := 200;
              json_body := Ok (JObj [(lit "model", JStr (lit "gemma3:1b"));
                                     (lit "response", JStr example_response)]) |}
           [(lit "model", JStr (lit "gemma3:1b"));
            (lit "response", JStr example_response)]
           example_response).
  - reflexivity.
  - simpl. lia.
  - reflexivity.
  - vm_compute. reflexivity.
  - intros H. vm_compute in H. discriminate H.
Defined.

(** *** The health probe *)

Lemma before_first_prefix sep text :
  exists rest, text = before_first sep text ++ rest.
Proof.
  induction text as [|c r [rest IH]]; simpl.
  - exists []. by destruct (starts_with sep []).
  - destruct (starts_with sep (c :: r)); [by eexists|].
    exists rest. simpl. by rewrite <- IH.
Qed.

Lemma before_first_no_sep sep text :
  sep <> [] -> contains sep (before_first sep text) = false.
Proof.
  intros Hsep. induction text as [|c r IH].
  - simpl. destruct sep; [done|]. by simpl.
  - cbn [before_first]. destruct (starts_with sep (c :: r)) eqn:Hs.
    + destruct sep; [done|]. by simpl.
    + cbn [contains]. rewrite IH, orb_false_r.
      apply not_true_is_false. intros Hp.
      apply starts_with_spec in Hp as [post Hp].
      destruct (before_first_prefix sep r) as [rest Hr].
      assert (starts_with sep (c :: r) = true) as Hs'; [|congruence].
      apply starts_with_spec. exists (post ++ rest).
      rewrite app_assoc, <- Hp. simpl. by rewrite <- Hr.
Qed.

Lemma before_first_absent sep text :
  contains sep text = false -> before_first sep text = text.
Proof.
  induction text as [|c r IH]; cbn [contains before_first].
  - rewrite orb_false_r. by intros ->.
  - intros H. apply orb_false_iff in H as [-> H]. by rewrite IH.
Qed.

Lemma before_first_present sep text :
  contains sep text = true ->
  exists rest, text = before_first sep text ++ sep ++ rest.
Proof.
  induction text as [|c r IH]; cbn [contains before_first].
  - rewrite orb_false_r. intros H. rewrite H.
    apply starts_with_spec in H as [post H]. by exists post.
  - destruct (starts_with sep (c :: r)) eqn:Hs.
    + intros _. apply starts_with_spec in Hs as [post Hs]. by exists post.
    + simpl. intros H. destruct (IH H) as [rest Hr].
      exists rest. simpl. by rewrite <- Hr.
Qed.

(** X11. [_get_base_url] cuts the URL at the first "/api": the result
    holds no "/api", it is the whole URL when the URL has none, and
    otherwise the URL is the result followed by "/api" and a rest. *)
Theorem get_base_url_cuts_at_api (ollama_url : list N) :
  contains (lit "/api") (_get_base_url ollama_url) = false /\
  (contains (lit "/api") ollama_url = false -> _get_base_url ollama_url = ollama_url) /\
  (contains (lit "/api") ollama_url = true ->
   exists rest, ollama_url = _get_base_url ollama_url ++ lit "/api" ++ rest).
Proof.
  unfold _get_base_url. split; [|split].
  - apply before_first_no_sep. intros H. vm_compute in H. discriminate H.
  - apply before_first_absent.
  - apply before_first_present.
Qed.

Section HealthProps.

Variable requests_get : list N -> res response.

Lemma probe_endpoint_answers url :
  answers requests_get url = true <->
  exists h, probe_endpoint requests_get url = Some h /\ ok h = true.
Proof.
  unfold answers, probe_endpoint.
  destruct (requests_get url) as [resp|]; [|split; [done|by intros (? & ? & ?)]].
  destruct (status_code resp =? 200)%Z.
  - destruct (json_body resp); split; try done; [by eauto|by intros (? & ? & ?)].
  - destruct (status_code resp =? 404)%Z; split; try done;
      [by eauto|by intros (? & ? & ?)].
Qed.

Lemma probe_endpoint_silent url :
  answers requests_get url = false <-> probe_endpoint requests_get url = None.
Proof.
  unfold answers, probe_endpoint.
  destruct (requests_get url) as [resp|]; [|done].
  destruct (status_code resp =? 200)%Z; [by destruct (json_body resp)|].
  by destruct (status_code resp =? 404)%Z.
Qed.

Lemma probe_endpoints_ok base endpoints h :
  probe_endpoints requests_get base endpoints = Some h ->
  ok h = true /\ models h <> None.
Proof.
  induction endpoints as [|path rest IH]; simpl; [done|].
  destruct (probe_endpoint requests_get (base ++ path)) as [h'|] eqn:Hp; [|done].
  intros [= <-]. unfold probe_endpoint in Hp.
  destruct (requests_get (base ++ path)) as [resp|]; [|done].
  destruct (status_code resp =? 200)%Z.
  - destruct (json_body resp); [|done]. by injection Hp as <-.
  - destruct (status_code resp =? 404)%Z; [|done]. by injection Hp as <-.
Qed.

Lemma probe_endpoints_none base endpoints :
  probe_endpoints requests_get base endpoints = None <->
  forall path, In path endpoints -> answers requests_get (base ++ path) = false.
Proof.
  induction endpoints as [|path rest IH]; simpl.
  - split; [by intros _ ? []|done].
  - destruct (probe_endpoint requests_get (base ++ path)) eqn:Hp.
    + split; [done|]. intros H.
      specialize (H path (or_introl eq_refl)).
      apply probe_endpoint_silent in H. congruence.
    + rewrite IH. apply probe_endpoint_silent in Hp. split.
      * intros H p [<-|Hin]; [done|by apply H].
      * intros H p Hin. apply H. by right.
Qed.

End HealthProps.

(** X12. [health_check] reports [ok = False] exactly when none of the
    three endpoints answers with status 404 or with status 200 and a
    decodable body; then the message is "Unable to reach Ollama" and
    [models] is [None], and when [ok] is true [models] is a list. *)
Theorem health_check_unreachable_iff
  (requests_get : list N -> res response) (ollama_url : list N) :
  let base_url := rstrip_slash (_get_base_url ollama_url) in
  let status := health_check requests_get ollama_url in
  (ok status = false <->
   forall path, In path ENDPOINTS -> answers requests_get (base_url ++ path) = false) /\
  (ok status = false ->
   msg status = lit "Unable to reach Ollama" /\ models status = None) /\
  (ok status = true -> models status <> None).
Proof.
  intros base_url status. subst status. unfold health_check. fold base_url.
  destruct (probe_endpoints requests_get base_url ENDPOINTS) as [h|] eqn:Hp; simpl.
  - destruct (probe_endpoints_ok _ _ _ _ Hp) as [Hok Hm]. rewrite Hok.
    split; [|split; [done|done]]. split; [done|].
    intros H.
    apply (proj2 (probe_endpoints_none requests_get base_url ENDPOINTS)) in H.
    congruence.
  - split; [|split; [done|done]]. split; [|done].
    intros _.
    by apply (proj1 (probe_endpoints_none requests_get base_url ENDPOINTS)).
Qed.

Example health_check_tags_only :
  health_check tags_only DEFAULT_OLLAMA_URL =
  {| ok := true; msg := lit "Ollama reachable";
     models := Some [JStr (lit "gemma3:1b")] |}.
Proof. vm_compute. reflexivity. Qed.

Lemma omap_model_name_objects (names : list (list N)) :
  omap model_name ((fun n => JObj [(lit "name", JStr n)]) <$> names)
  = JStr <$> List.filter nonempty names.
Proof.
  induction names as [|n names IH]; [done|].
  change (omap model_name ((fun n => JObj [(lit "name", JStr n)]) <$> (n :: names)))
    with (match model_name (JObj [(lit "name", JStr n)]) with
          | Some y => y :: omap model_name ((fun n => JObj [(lit "name", JStr n)]) <$> names)
          | None => omap model_name ((fun n => JObj [(lit "name", JStr n)]) <$> names)
          end).
  rewrite IH. by destruct n.
Qed.

Lemma omap_model_name_strings (names : list (list N)) :
  omap model_name (JStr <$> names) = JStr <$> names.
Proof.
  induction names as [|n names IH]; [done|].
  change (omap model_name (JStr <$> (n :: names)))
    with (JStr n :: omap model_name (JStr <$> names)).
  by rewrite IH.
Qed.

(** X13. [_parse_model_list] returns the non-empty names of a model
    listing [{"models": [{"name": ..}, ..]}] in order, returns a plain
    list of strings unchanged, and returns no model for a number, a
    string, [null] or an empty object. *)
Theorem parse_model_list_shapes (names : list (list N)) :
  _parse_model_list (tags_listing names) = JStr <$> List.filter nonempty names /\
  _parse_model_list (JArr (JStr <$> names)) = JStr <$> names /\
  (forall q, _parse_model_list (JNum q) = []) /\
  (forall s, _parse_model_list (JStr s) = []) /\
  _parse_model_list JNull = [] /\
  _parse_model_list (JObj []) = [].
Proof.
  split; [|split; [apply omap_model_name_strings|by repeat split]].
  unfold _parse_model_list, tags_listing.
  destruct names as [|n names]; [done|].
  change (default JNull (fields_find (lit "models") _))
    with (JArr ((fun n => JObj [(lit "name", JStr n)]) <$> (n :: names))).
  apply omap_model_name_objects.
Qed.

(** ** The vector store, continued *)

Lemma lit_inj (s1 s2 : string) : lit s1 = lit s2 -> s1 = s2.
Proof.
  unfold lit. intros H.
  rewrite <- (String.string_of_list_ascii_of_string s1),
          <- (String.string_of_list_ascii_of_string s2).
  f_equal. revert H.
  generalize (String.list_ascii_of_string s1) (String.list_ascii_of_string s2).
  induction l as [|a l IH]; intros [|b l'] H; try done.
  injection H as Ha Hl. f_equal; [|by apply IH].
  rewrite <- (Ascii.ascii_N_embedding a), <- (Ascii.ascii_N_embedding b).
  by rewrite Ha.
Qed.

Lemma str_of_nat_inj i j : str_of_nat i = str_of_nat j -> i = j.
Proof. unfold str_of_nat. intros H. apply lit_inj in H. by apply (inj pretty). Qed.

Lemma index_resumes_lookup resumes : forall idx key r,
  (index_resumes idx resumes).2 !! key = Some r <->
  exists i, key = str_of_nat (idx + i) /\ resumes !! i = Some r.
Proof.
  induction resumes as [|r0 rest IH]; intros idx key r.
  - simpl. rewrite lookup_empty. split; [done|]. by intros (i & _ & ?).
  - cbn [index_resumes]. specialize (IH (S idx)).
    destruct (index_resumes (S idx) rest) as [[texts metas] lookup].
    simpl in IH. cbn [snd]. rewrite lookup_union_Some_raw. split.
    + intros [H|[Hnone H]].
      * apply IH in H as (i & -> & Hi). exists (S i). split; [|done].
        f_equal. lia.
      * apply lookup_singleton_Some in H as [<- <-]. exists 0%nat.
        split; [f_equal; lia|done].
    + intros ([|i] & -> & Hi).
      * right. simpl in Hi. injection Hi as <-.
        replace (idx + 0)%nat with idx by lia. split.
        -- destruct (lookup !! str_of_nat idx) as [r'|] eqn:Hl; [|done].
           apply IH in Hl as (j & Hj & _). apply str_of_nat_inj in Hj. lia.
        -- apply lookup_singleton_eq.
      * left. apply IH. exists i. split; [f_equal; lia|done].
Qed.

Lemma index_resumes_metadata resumes : forall idx i,
  (index_resumes idx resumes).1.2 !! i =
  (fun r => metadata r ∪ {[ K_candidate_id := str_of_nat (idx + i) ]}) <$> resumes !! i.
Proof.
  induction resumes as [|r0 rest IH]; intros idx i; [done|].
  cbn [index_resumes]. specialize (IH (S idx)).
  destruct (index_resumes (S idx) rest) as [[texts metas] lookup].
  simpl in IH. cbn [fst snd].
  destruct i as [|i]; simpl.
  - by replace (idx + 0)%nat with idx by lia.
  - rewrite IH. by replace (idx + S i)%nat with (S idx + i)%nat by lia.
Qed.

Lemma build_store_lookup embed_documents self resumes :
  _resume_lookup (build_store embed_documents self resumes).1
  = (index_resumes 1 resumes).2.
Proof.
  unfold build_store.
  destruct (index_resumes 1 resumes) as [[texts metas] lookup].
  destruct texts; [done|]. by destruct (embed_documents _).
Qed.

(** X14. [build_store] numbers the resumes from 1 in input order: the
    i-th resume (from 0) is found by [get_resume_by_id] under
    [str(i + 1)], no other id is known to the lookup, and after a
    normal return the i-th metadata dict carries that id as
    [candidate_id], unless the resume's own metadata has a
    [candidate_id], which then takes its place. *)
Theorem build_store_assigns_sequential_ids
  (embed_documents : list (list N) -> res ndarray)
  (self : VectorStoreManager) (resumes : list resume) (i : nat) (r : resume) :
  resumes !! i = Some r ->
  let self' := (build_store embed_documents self resumes).1 in
  get_resume_by_id self' (Some (str_of_nat (S i))) = Some r /\
  (forall id, get_resume_by_id self' (Some id) <> None ->
     exists j, id = str_of_nat (S j) /\ j < length resumes) /\
  ((build_store embed_documents self resumes).2 = Ok tt ->
   (_metadatas self' !! i) ≫= (.!! K_candidate_id)
   = Some (default (str_of_nat (S i)) (metadata r !! K_candidate_id))).
Proof.
  intros Hi self'. subst self'. split; [|split].
  - unfold get_resume_by_id. simpl. rewrite build_store_lookup.
    apply index_resumes_lookup. by exists i.
  - intros id. unfold get_resume_by_id. simpl. rewrite build_store_lookup.
    destruct (_ !! id) as [r'|] eqn:Hl; [|done]. intros _.
    apply index_resumes_lookup in Hl as (j & -> & Hj).
    exists j. split; [done|]. by apply lookup_lt_Some in Hj.
  - destruct resumes as [|r0 rest] eqn:Hres; [done|]. rewrite <- Hres in *.
    destruct (embed_documents (text <$> resumes)) as [emb|e] eqn:Hemb.
    + destruct (build_store_success embed_documents self resumes r0 rest emb Hres Hemb)
        as (_ & Hstruct & _).
      intros _. unfold structures in Hstruct. injection Hstruct as _ _ ->.
      rewrite index_resumes_metadata, Hi. cbn [fmap option_fmap option_map mbind option_bind].
      rewrite lookup_union, lookup_singleton_eq.
      by destruct (metadata r !! K_candidate_id).
    + destruct (build_store_embedding_failure embed_documents self resumes r0 rest e Hres Hemb)
        as (Hfail & _).
      rewrite Hfail. done.
Qed.

Lemma build_store_assigns_sequential_ids_witness :
  let self' := (build_store embed_pythagorean fresh_store [ann; bob]).1 in
  get_resume_by_id self' (Some (str_of_nat 2)) = Some bob /\
  (forall id, get_resume_by_id self' (Some id) <> None ->
     exists j, id = str_of_nat (S j) /\ j < length [ann; bob]) /\
  ((build_store embed_pythagorean fresh_store [ann; bob]).2 = Ok tt ->
   (_metadatas self' !! 1%nat) ≫= (.!! K_candidate_id)
   = Some (default (str_of_nat 2) (metadata bob !! K_candidate_id))).
Proof.
  apply (build_store_assigns_sequential_ids embed_pythagorean fresh_store
           [ann; bob] 1 bob).
  reflexivity.
Defined.

(** X15. When the embedding model answers a non-empty batch with one
    vector per text, of positive width, [build_store] returns normally
    and leaves a store with as many metadata dicts as vectors and as
    resumes, written to both files. *)
Theorem build_store_establishes_invariant
  (embed_documents : list (list N) -> res ndarray)
  (self : VectorStoreManager) (resumes : list resume) (embeddings : ndarray) :
  resumes <> [] ->
  embeds_batch embed_documents (text <$> resumes) embeddings ->
  let self' := (build_store embed_documents self resumes).1 in
  (build_store embed_documents self resumes).2 = Ok tt /\
  store_wf self' /\
  length (_metadatas self') = length resumes /\
  persisted self'.
Proof.
  intros Hne (Hemb & Hrows & Hwidth) self'. subst self'.
  destruct resumes as [|r0 rest] eqn:Hres; [done|]. rewrite <- Hres in *.
  destruct (build_store_success embed_documents self resumes r0 rest embeddings Hres Hemb)
    as (Hok & Hstruct & Hpers).
  unfold structures in Hstruct. injection Hstruct as _ Hv Hm.
  split; [done|]. unfold store_wf. rewrite Hv, Hm, index_resumes_metadatas.
  rewrite length_fmap in Hrows. rewrite Hrows.
  split; [by split|]. split; [done|exact Hpers].
Qed.

Lemma build_store_establishes_invariant_witness :
  let self' := (build_store embed_pythagorean fresh_store [ann; bob]).1 in
  (build_store embed_pythagorean fresh_store [ann; bob]).2 = Ok tt /\
  store_wf self' /\
  length (_metadatas self') = length [ann; bob] /\
  persisted self'.
Proof.
  apply (build_store_establishes_invariant embed_pythagorean fresh_store [ann; bob]
           {| rows := [[4; 3]; [3; 4]]%Q; width := 2 |}).
  - discriminate.
  - split; [vm_compute; reflexivity|]. split; [reflexivity|]. simpl. lia.
Defined.

(** *** The limit [k] *)

Lemma mapM_res_take {A B} (f : A -> res B) l bs n :
  mapM_res f l = Ok bs -> mapM_res f (take n l) = Ok (take n bs).
Proof.
  revert bs n. induction l as [|a l IH]; intros bs n.
  - simpl. intros [= <-]. by destruct n.
  - simpl. destruct (f a) as [b|] eqn:Hf; simpl; [|done].
    destruct (mapM_res f l) as [bs'|] eqn:Hl; simpl; [|done].
    intros [= <-]. destruct n as [|n]; [done|].
    simpl. rewrite Hf. simpl. by rewrite (IH bs' n eq_refl).
Qed.

Lemma mapM_res_length {A B} (f : A -> res B) l bs :
  mapM_res f l = Ok bs -> length bs = length l.
Proof.
  revert bs. induction l as [|a l IH]; intros bs; simpl.
  - by intros [= <-].
  - destruct (f a); simpl; [|done].
    destruct (mapM_res f l) as [bs'|]; simpl; [|done].
    intros [= <-]. simpl. by rewrite (IH bs' eq_refl).
Qed.

(** X16. With a limit [k] other than 0 the search returns the slice
    [results[:k]] of what it returns without a limit: the first [k]
    pairs for a positive [k], all but the last [-k] for a negative one. *)
Theorem search_limit_is_slice
  (cosine : list Q -> list Q -> Q) (argsort : list Q -> list nat)
  (self : VectorStoreManager) (query_vector : list Q) (k : Z)
  (results : list (gmap (list N) (list N) * Q)) :
  similarity_search_with_scores cosine argsort self query_vector None = Ok results ->
  k <> 0%Z ->
  similarity_search_with_scores cosine argsort self query_vector (Some k)
  = Ok (slice_to k results).
Proof.
  unfold similarity_search_with_scores.
  case_decide; [done|].
  destruct (cosine_similarity _ _ _) as [sims|]; simpl; [|done].
  intros Hres Hk.
  assert ((k =? 0)%Z = false) as -> by (by apply Z.eqb_neq).
  simpl. unfold slice_to.
  rewrite (mapM_res_length _ _ _ Hres).
  destruct (0 <=? k)%Z; by apply mapM_res_take.
Qed.

Lemma search_limit_is_slice_witness :
  similarity_search_with_scores cosine_of_rational_norms argsort_stable
    pair_store [3; 4]%Q (Some 1%Z)
  = Ok (slice_to 1 [(default ∅ (_metadatas pair_store !! 1%nat), (0 # 25)%Q);
                    (default ∅ (_metadatas pair_store !! 0%nat), (1 # 25)%Q)]).
Proof.
  apply (search_limit_is_slice cosine_of_rational_norms argsort_stable
           pair_store [3; 4]%Q 1).
  - vm_compute. reflexivity.
  - discriminate.
Defined.

(** *** The warm start *)

(** X17. A manager created on the directory of a manager whose files
    are up to date loads the same vectors and metadata, and answers
    every search as the old one does; its lookup of resumes is empty. *)
Theorem restart_reloads_persisted_store (self : VectorStoreManager) :
  persisted self ->
  _vectors (restart self) = _vectors self /\
  _metadatas (restart self) = _metadatas self /\
  _resume_lookup (restart self) = ∅ /\
  persisted (restart self) /\
  forall cosine argsort query_vector k,
    similarity_search_with_scores cosine argsort (restart self) query_vector k
    = similarity_search_with_scores cosine argsort self query_vector k.
Proof.
  intros [Hv Hm]. unfold restart, VectorStoreManager_init.
  rewrite Hv, Hm. cbn. repeat split.
Qed.

Lemma restart_reloads_persisted_store_witness :
  _vectors (restart pair_store) = _vectors pair_store /\
  _metadatas (restart pair_store) = _metadatas pair_store /\
  _resume_lookup (restart pair_store) = ∅ /\
  persisted (restart pair_store) /\
  forall cosine argsort query_vector k,
    similarity_search_with_scores cosine argsort (restart pair_store) query_vector k
    = similarity_search_with_scores cosine argsort pair_store query_vector k.
Proof.
  apply (restart_reloads_persisted_store pair_store).
  split; vm_compute; reflexivity.
Defined.

(** X18. [_load] on a new manager takes both files or none: either
    both hold values and become the vectors and the metadata, or one of
    them is missing or unreadable and the store stays empty.  The lookup
    is never touched. *)
Theorem load_is_all_or_nothing
  (vectors_state : stored ndarray)
  (meta_state : stored (list (gmap (list N) (list N))))
  (self : VectorStoreManager) :
  _vectors self = zeros_0_384 -> _metadatas self = [] ->
  let self' := _load vectors_state meta_state self in
  _resume_lookup self' = _resume_lookup self /\
  ((exists vectors metadatas,
      vectors_state = Holds vectors /\ meta_state = Holds metadatas /\
      _vectors self' = vectors /\ _metadatas self' = metadatas)
   \/ ((vectors_state = Missing \/ vectors_state = Unreadable \/
        meta_state = Missing \/ meta_state = Unreadable) /\
       _vectors self' = zeros_0_384 /\ _metadatas self' = [])).
Proof.
  intros Hv Hm self'. subst self'. unfold _load.
  destruct vectors_state as [| |vectors], meta_state as [| |metadatas]; cbn;
    (split; [done|]);
    try (right; split; [by auto|by split]).
  left. exists vectors, metadatas. by repeat split.
Qed.

Lemma load_is_all_or_nothing_witness :
  let self' := _load (Holds zeros_0_384) Unreadable fresh_store in
  _resume_lookup self' = _resume_lookup fresh_store /\
  ((exists vectors metadatas,
      Holds zeros_0_384 = Holds vectors /\
      (Unreadable : stored (list (gmap (list N) (list N)))) = Holds metadatas /\
      _vectors self' = vectors /\ _metadatas self' = metadatas)
   \/ ((Holds zeros_0_384 = Missing \/ Holds zeros_0_384 = Unreadable \/
        (Unreadable : stored (list (gmap (list N) (list N)))) = Missing \/
        (Unreadable : stored (list (gmap (list N) (list N)))) = Unreadable) /\
       _vectors self' = zeros_0_384 /\ _metadatas self' = [])).
Proof.
  apply (load_is_all_or_nothing (Holds zeros_0_384) Unreadable fresh_store);
    reflexivity.
Defined.

(** ** The candidate scorer, continued *)

Section EvaluateProps.

Variable lower : list N -> list N.
Variable requests_post : list N -> res response.
Variable py_str : json -> list N.
Variable cosine : list Q -> list Q -> Q.
Variable argsort : list Q -> list nat.

Local Abbreviation evaluate' := (evaluate lower requests_post py_str cosine argsort).
Local Abbreviation evaluate_one' := (evaluate_one lower requests_post py_str).

Lemma evaluate_one_returns self jd_text jd_skills jd_experience hit :
  exists oc, evaluate_one' self jd_text jd_skills jd_experience hit = Ok oc.
Proof.
  unfold evaluate_one. destruct hit as [m d].
  destruct (get_resume_by_id self (m !! K_candidate_id)); [|by eauto].
  destruct (analyze_candidate_total lower requests_post py_str
              (get_or m (lit "candidate_name") (lit "Candidate")) jd_text
              (clean_text (text r))) as [fb ->].
  simpl. by eauto.
Qed.

Lemma mapM_res_returns {A B} (f : A -> res B) l :
  (forall a, In a l -> exists b, f a = Ok b) -> exists bs, mapM_res f l = Ok bs.
Proof.
  induction l as [|a l IH]; intros H; [by exists []|].
  destruct (H a (or_introl eq_refl)) as [b Hb].
  destruct IH as [bs Hbs]; [intros; apply H; by right|].
  exists (b :: bs). simpl. rewrite Hb. simpl. by rewrite Hbs.
Qed.

Lemma evaluate_after_search self jd_text jd_vector top_k results :
  similarity_search_with_scores cosine argsort self jd_vector top_k = Ok results ->
  exists evs,
    mapM_res (evaluate_one' self jd_text (extract_skills lower jd_text)
                (estimate_years_of_experience jd_text)) results = Ok evs /\
    evaluate' self jd_text jd_vector top_k = Ok (sorted_desc (omap id evs)).
Proof.
  intros Hs.
  destruct (mapM_res_returns
              (evaluate_one' self jd_text (extract_skills lower jd_text)
                 (estimate_years_of_experience jd_text)) results) as [evs Hevs].
  { intros hit _. apply evaluate_one_returns. }
  exists evs. split; [done|]. unfold evaluate. rewrite Hs. simpl.
  by rewrite Hevs.
Qed.

Lemma evaluate_raises_iff self jd_text jd_vector top_k e :
  evaluate' self jd_text jd_vector top_k = Raise e <->
  similarity_search_with_scores cosine argsort self jd_vector top_k = Raise e.
Proof.
  destruct (similarity_search_with_scores cosine argsort self jd_vector top_k)
    as [results|e'] eqn:Hs.
  - destruct (evaluate_after_search self jd_text jd_vector top_k results Hs)
      as (evs & _ & ->). by split.
  - unfold evaluate. rewrite Hs. simpl. split; by intros [= ->].
Qed.

Lemma insert_desc_hd c d l :
  ranked_before d c -> HdRel ranked_before d l -> HdRel ranked_before d (insert_desc c l).
Proof.
  intros Hdc Hl. destruct l as [|x l]; simpl; [by constructor|].
  destruct (Qlt_le_dec _ _); constructor; [by inversion Hl|done].
Qed.

Lemma insert_desc_sorted c l :
  Sorted ranked_before l -> Sorted ranked_before (insert_desc c l).
Proof.
  induction 1 as [|d l Hl IH Hhd]; simpl; [by repeat constructor|].
  destruct (Qlt_le_dec (match_score c) (match_score d)) as [Hlt|Hle].
  - constructor; [done|]. apply insert_desc_hd; [|done].
    unfold ranked_before. by apply Qlt_le_weak.
  - constructor; [by constructor|]. by constructor.
Qed.

Lemma sorted_desc_sorted l : Sorted ranked_before (sorted_desc l).
Proof.
  induction l as [|c l IH]; simpl; [constructor|]. by apply insert_desc_sorted.
Qed.

Lemma evaluate_empty_lookup self jd_text jd_vector top_k results :
  _resume_lookup self = ∅ ->
  similarity_search_with_scores cosine argsort self jd_vector top_k = Ok results ->
  evaluate' self jd_text jd_vector top_k = Ok [].
Proof.
  intros Hl Hs. unfold evaluate. rewrite Hs. simpl.
  rewrite (mapM_res_Ok _ (fun _ => None)).
  - simpl. replace (omap id ((fun _ => None) <$> results)) with (@nil CandidateScore); [done|].
    clear. by induction results.
  - intros [m d] _. unfold evaluate_one, get_resume_by_id. rewrite Hl.
    destruct (m !! K_candidate_id); simpl; [by rewrite lookup_empty|done].
Qed.

End EvaluateProps.

#[local] Instance ranked_before_trans : Transitive ranked_before.
Proof. intros a b c. unfold ranked_before. intros. by eapply Qle_trans. Qed.

(** X19. [evaluate] raises exactly when the search raises, with the
    same exception; in particular it raises the "not initialized" error
    on an empty store.  Failures of the generation service never abort
    it. *)
Theorem evaluate_fails_only_with_search
  (lower : list N -> list N) (requests_post : list N -> res response)
  (py_str : json -> list N)
  (cosine : list Q -> list Q -> Q) (argsort : list Q -> list nat)
  (self : VectorStoreManager) (jd_text : list N) (jd_vector : list Q)
  (top_k : option Z) :
  (forall e,
     evaluate lower requests_post py_str cosine argsort self jd_text jd_vector top_k
       = Raise e <->
     similarity_search_with_scores cosine argsort self jd_vector top_k = Raise e) /\
  (nd_size (_vectors self) = 0 ->
   evaluate lower requests_post py_str cosine argsort self jd_text jd_vector top_k
     = Raise (RuntimeError NOT_INITIALIZED)).
Proof.
  split; [intros e; apply evaluate_raises_iff|].
  intros H. apply evaluate_raises_iff. by apply search_uninitialized.
Qed.

(** X20. The list returned by [evaluate] is in descending order of
    match score: no candidate has a higher score than one listed before
    it. *)
Theorem evaluate_ranks_by_match_score
  (lower : list N -> list N) (requests_post : list N -> res response)
  (py_str : json -> list N)
  (cosine : list Q -> list Q -> Q) (argsort : list Q -> list nat)
  (self : VectorStoreManager) (jd_text : list N) (jd_vector : list Q)
  (top_k : option Z) (evaluations : list CandidateScore) :
  evaluate lower requests_post py_str cosine argsort self jd_text jd_vector top_k
    = Ok evaluations ->
  StronglySorted ranked_before evaluations.
Proof.
  intros Hev.
  destruct (similarity_search_with_scores cosine argsort self jd_vector top_k)
    as [results|e] eqn:Hs.
  - destruct (evaluate_after_search lower requests_post py_str cosine argsort
                self jd_text jd_vector top_k results Hs) as (evs & _ & Heq).
    rewrite Heq in Hev. injection Hev as <-.
    apply Sorted_StronglySorted; [apply _|]. apply sorted_desc_sorted.
  - unfold evaluate in Hev. rewrite Hs in Hev. done.
Qed.

Lemma evaluate_ranks_by_match_score_witness :
  exists evaluations,
    evaluate lower_ascii unreachable no_repr cosine_of_rational_norms argsort_stable
      pair_store python_jd [3; 4]%Q None = Ok evaluations /\
    candidate_name <$> evaluations = [lit "Ann"; lit "Bob"] /\
    StronglySorted ranked_before evaluations.
Proof.
  eexists. split; [vm_compute; reflexivity|]. split; [vm_compute; reflexivity|].
  apply (evaluate_ranks_by_match_score lower_ascii unreachable no_repr
           cosine_of_rational_norms argsort_stable pair_store python_jd [3; 4]%Q None).
  vm_compute. reflexivity.
Defined.

(** X21. On a manager whose lookup of resumes is empty, as after a
    warm start from the files, [evaluate] returns the empty list even
    though the search returns hits: every hit is skipped. *)
Theorem evaluate_needs_the_lookup
  (lower : list N -> list N) (requests_post : list N -> res response)
  (py_str : json -> list N)
  (cosine : list Q -> list Q -> Q) (argsort : list Q -> list nat)
  (self : VectorStoreManager) (jd_text : list N) (jd_vector : list Q)
  (top_k : option Z) (results : list (gmap (list N) (list N) * Q)) :
  _resume_lookup self = ∅ ->
  similarity_search_with_scores cosine argsort self jd_vector top_k = Ok results ->
  evaluate lower requests_post py_str cosine argsort self jd_text jd_vector top_k = Ok [].
Proof. apply evaluate_empty_lookup. Qed.

Lemma evaluate_needs_the_lookup_witness :
  length (default [] (match similarity_search_with_scores cosine_of_rational_norms
                              argsort_stable (restart pair_store) [3; 4]%Q None with
                      | Ok l => Some l | Raise _ => None end)) = 2%nat /\
  evaluate lower_ascii unreachable no_repr cosine_of_rational_norms argsort_stable
    (restart pair_store) python_jd [3; 4]%Q None = Ok [].
Proof.
  split; [vm_compute; reflexivity|].
  eapply (evaluate_needs_the_lookup lower_ascii unreachable no_repr
            cosine_of_rational_norms argsort_stable (restart pair_store)
            python_jd [3; 4]%Q None).
  - reflexivity.
  - vm_compute. reflexivity.
Defined.

Lemma mapM_res_all_some {A B} (f : A -> res (option B)) l :
  (forall a, In a l -> exists b, f a = Ok (Some b)) ->
  exists evs, mapM_res f l = Ok evs /\ length (omap id evs) = length l.
Proof.
  induction l as [|a l IH]; intros H; [by exists []|].
  destruct (H a (or_introl eq_refl)) as [b Hb].
  destruct IH as (evs & Hevs & Hlen); [intros; apply H; by right|].
  exists (Some b :: evs). simpl. rewrite Hb. simpl. rewrite Hevs. simpl.
  split; [done|]. by rewrite <- Hlen.
Qed.

Lemma evaluate_one_found lower requests_post py_str self jd_text jd_skills
  jd_experience m d id r :
  m !! K_candidate_id = Some id ->
  _resume_lookup self !! id = Some r ->
  exists c,
    evaluate_one lower requests_post py_str self jd_text jd_skills jd_experience (m, d)
    = Ok (Some c).
Proof.
  intros Hid Hr. unfold evaluate_one, get_resume_by_id. rewrite Hid.
  cbn [mbind option_bind]. rewrite Hr.
  destruct (analyze_candidate_total lower requests_post py_str
              (get_or m (lit "candidate_name") (lit "Candidate")) jd_text
              (clean_text (text r))) as [fb ->].
  simpl. by eauto.
Qed.

(** X22. After [build_store] on a non-empty batch of resumes that
    bring no [candidate_id] of their own, with an embedding model that
    answers with one vector per text, [evaluate] without a limit returns
    exactly one candidate per resume. *)
Theorem evaluate_scores_every_resume
  (lower : list N -> list N) (requests_post : list N -> res response)
  (py_str : json -> list N)
  (cosine : list Q -> list Q -> Q) (argsort : list Q -> list nat)
  (embed_documents : list (list N) -> res ndarray)
  (self : VectorStoreManager) (resumes : list resume) (embeddings : ndarray)
  (jd_text : list N) (jd_vector : list Q) :
  argsort_contract argsort ->
  resumes <> [] ->
  (forall r, In r resumes -> metadata r !! K_candidate_id = None) ->
  embeds_batch embed_documents (text <$> resumes) embeddings ->
  length jd_vector = width embeddings ->
  let self' := (build_store embed_documents self resumes).1 in
  exists evaluations,
    evaluate lower requests_post py_str cosine argsort self' jd_text jd_vector None
      = Ok evaluations /\
    length evaluations = length resumes.
Proof.
  intros Hsort Hne Hfresh (Hemb & Hrows & Hwidth) Hq self'. subst self'.
  destruct resumes as [|r0 rest] eqn:Hres; [done|]. rewrite <- Hres in *.
  destruct (build_store_success embed_documents self resumes r0 rest embeddings Hres Hemb)
    as (_ & Hstruct & _).
  set (self' := (build_store embed_documents self resumes).1) in *.
  unfold structures in Hstruct. injection Hstruct as Hl Hv Hm.
  rewrite length_fmap in Hrows.
  assert (store_wf self') as Hwf.
  { unfold store_wf. rewrite Hv, Hm, index_resumes_metadatas. by split. }
  assert (rows (_vectors self') <> []) as Hrne.
  { rewrite Hv. intros H0. rewrite H0, Hres in Hrows. done. }
  assert (length jd_vector = width (_vectors self')) as Hq' by (by rewrite Hv).
  pose proof (search_all_hits cosine argsort Hsort self' jd_vector Hwf Hrne Hq') as Hsearch.
  unfold evaluate. rewrite Hsearch. simpl.
  destruct (mapM_res_all_some
              (evaluate_one lower requests_post py_str self' jd_text
                 (extract_skills lower jd_text) (estimate_years_of_experience jd_text))
              (hit_of cosine self' jd_vector <$> order_of cosine argsort self' jd_vector))
    as (evs & Hevs & Hlen).
  { intros hit Hhit. apply list_elem_of_In, list_elem_of_fmap in Hhit as (idx & -> & Hidx).
    apply list_elem_of_In, (order_in_range cosine argsort Hsort self' jd_vector Hq') in Hidx.
    rewrite length_sims, Hv, Hrows in Hidx.
    destruct (lookup_lt_is_Some_2 resumes idx Hidx) as [r Hr].
    unfold hit_of.
    apply (evaluate_one_found lower requests_post py_str self' jd_text _ _ _ _
             (str_of_nat (1 + idx)) r).
    - rewrite Hm, index_resumes_metadata, Hr.
      cbn [fmap option_fmap option_map default from_option id].
      rewrite lookup_union, lookup_singleton_eq.
      by rewrite (Hfresh r) by (apply list_elem_of_In; by eapply list_elem_of_lookup_2).
    - rewrite Hl. apply index_resumes_lookup. by exists idx. }
  rewrite Hevs. simpl. eexists. split; [done|].
  rewrite sorted_desc_perm, Hlen, length_fmap.
  destruct (Hsort (Qopp <$> sims_of cosine self' jd_vector)) as [Hp _].
  unfold order_of. rewrite Hp, length_seq, length_fmap, length_sims, Hv. done.
Qed.

Lemma evaluate_scores_every_resume_witness :
  exists evaluations,
    evaluate lower_ascii unreachable no_repr cosine_of_rational_norms argsort_stable
      (build_store embed_pythagorean fresh_store [ann; bob]).1 python_jd [3; 4]%Q None
      = Ok evaluations /\
    length evaluations = length [ann; bob].
Proof.
  apply (evaluate_scores_every_resume lower_ascii unreachable no_repr
           cosine_of_rational_norms argsort_stable embed_pythagorean fresh_store
           [ann; bob] {| rows := [[4; 3]; [3; 4]]%Q; width := 2 |} python_jd [3; 4]%Q).
  - apply argsort_stable_contract.
  - discriminate.
  - intros r [<-|[<-|[]]]; vm_compute; reflexivity.
  - split; [vm_compute; reflexivity|]. split; [reflexivity|]. simpl. lia.
  - reflexivity.
Defined.

(** *** The three heuristic scores *)

Local Open Scope Q_scope.

(** X23. [_normalize_similarity] maps a non-negative distance to a
    similarity in (0, 1], never grows when the distance grows, and maps
    distance 0 to 1. *)
Theorem normalize_similarity_monotone :
  (forall d, 0 <= d -> 0 < _normalize_similarity d <= 1) /\
  (forall d1 d2, 0 <= d1 -> d1 <= d2 ->
     _normalize_similarity d2 <= _normalize_similarity d1) /\
  _normalize_similarity 0 == 1.
Proof.
  unfold _normalize_similarity. split; [|split; [|reflexivity]].
  - intros d Hlo. split.
    + apply Qlt_shift_div_l; lra.
    + apply Qle_shift_div_r; lra.
  - intros d1 d2 H1 H12.
    apply Qle_shift_div_r; [lra|].
    assert (1 / (1 + d1) * (1 + d1) == 1) as Hinv by (field; lra).
    assert (0 < 1 / (1 + d1)) as Hpos.
    { apply Qlt_shift_div_l; lra. }
    nra.
Qed.

(** X24. The skill alignment lies in [0, 1]; it is 0.5 when the job
    description names no skill, 1 when the resume has every skill of the
    job description, and 0 when it has none of them. *)
Theorem score_skills_cases
  (lower : list N -> list N) (jd_skills : gset (list N)) (resume_text : list N) :
  0 <= _score_skills lower jd_skills resume_text <= 1 /\
  (jd_skills = ∅ -> _score_skills lower jd_skills resume_text = 0.5) /\
  (jd_skills <> ∅ -> jd_skills ⊆ extract_skills lower resume_text ->
   _score_skills lower jd_skills resume_text == 1) /\
  (jd_skills <> ∅ -> jd_skills ## extract_skills lower resume_text ->
   _score_skills lower jd_skills resume_text == 0).
Proof.
  split; [apply score_skills_range|].
  unfold _score_skills. split; [|split].
  - intros ->. by rewrite decide_True.
  - intros Hne Hsub. rewrite decide_False by done.
    rewrite (subseteq_intersection_1_L _ _ Hsub).
    assert (0 < size jd_skills)%nat as Hpos.
    { destruct (decide (size jd_skills = 0%nat)) as [H0|]; [|lia].
      apply size_empty_iff in H0. by apply leibniz_equiv in H0. }
    field. intros H0. change 0 with (inject_Z 0) in H0.
    pose proof (proj1 (inject_Z_injective _ _) H0). lia.
  - intros Hne Hdisj. rewrite decide_False by done.
    apply disjoint_intersection_L in Hdisj. rewrite Hdisj.
    rewrite size_empty. change (inject_Z (Z.of_nat 0)) with 0.
    unfold Qdiv. by rewrite Qmult_0_l.
Qed.

(** X25. For a job-description estimate taken from a text, the
    experience score lies in [0, 1]; it is 1 when the resume's estimate
    is at least 1.25 times a positive job-description estimate (the
    ratio is capped at 1.2), and 0.4 when the resume gives no
    estimate. *)
Theorem score_experience_bounds (jd_text resume_text : list N) :
  0 <= _score_experience (estimate_years_of_experience jd_text) resume_text <= 1 /\
  (forall jd re,
     estimate_years_of_experience jd_text = Some jd ->
     estimate_years_of_experience resume_text = Some re ->
     0 < jd -> 1.25 * jd <= re ->
     _score_experience (estimate_years_of_experience jd_text) resume_text == 1) /\
  (estimate_years_of_experience resume_text = None ->
   _score_experience (estimate_years_of_experience jd_text) resume_text = 0.4).
Proof.
  split; [apply score_experience_range, estimate_nonneg|]. split.
  - intros jd re Hjd Hre Hpos Hge. unfold _score_experience.
    rewrite Hjd, Hre. simpl.
    assert (Qeq_bool jd 0 = false) as ->.
    { apply not_true_is_false. intros H. apply Qeq_bool_iff in H. lra. }
    assert (Qeq_bool re 0 = false) as ->.
    { apply not_true_is_false. intros H. apply Qeq_bool_iff in H. lra. }
    simpl.
    assert (1.2 <= re / jd) as Hratio by (apply Qle_shift_div_l; lra).
    assert (py_min (re / jd) 1.2 == 1.2) as ->.
    { unfold py_min. destruct (Qlt_le_dec 1.2 (re / jd)); lra. }
    reflexivity.
  - intros Hre. unfold _score_experience. rewrite Hre. simpl.
    by rewrite andb_false_r.
Qed.

Local Close Scope Q_scope.

(** *** Chunked answers *)




